(** * pandevice.predefined: the predefined-object cache of a PAN-OS device

    A shallow embedding of [pandevice/predefined.py] (class [Predefined]) and
    the properties of its cache: the three name-keyed dictionaries, the XPath
    constants handed to the transport client, the pull-through look-ups and
    the bulk refreshes.

    Python dictionaries are [gmap string _]; the transport client
    ([self.parent.xapi.get]) is a function of the history of earlier calls,
    and every call is appended to a log kept next to the cache; an exception
    ends a method with the state as mutated so far. *)

From Stdlib Require Import Ascii String.
From stdpp Require Import base option list strings gmap fin_maps.

#[local] Set Warnings "-register-all".

Local Open Scope string_scope.
Local Open Scope list_scope.

(** ** XML elements (xml.etree.ElementTree) *)

Inductive Element : Type :=
  Elem (tag : string) (attrib : list (string * string)) (text : string)
       (children : list Element).

Definition elem_tag (e : Element) : string :=
  match e with Elem t _ _ _ => t end.

Definition elem_attrib (e : Element) : list (string * string) :=
  match e with Elem _ a _ _ => a end.

(** Iterating an element ([for elm in xml]) yields its direct children. *)
Definition elem_children (e : Element) : list Element :=
  match e with Elem _ _ _ c => c end.

Fixpoint first_tagged (t : string) (l : list Element) : option Element :=
  match l with
  | [] => None
  | e :: l' => if String.eqb (elem_tag e) t then Some e else first_tagged t l'
  end.

(** [e.find(t)] with a plain tag name: the first direct child tagged [t],
    or [None]. *)
Definition find (t : string) (e : Element) : option Element :=
  first_tagged t (elem_children e).

(** [e.get(k)]: the value of attribute [k]. *)
Fixpoint attrib_get (k : string) (a : list (string * string)) : option string :=
  match a with
  | [] => None
  | (k', v) :: a' => if String.eqb k' k then Some v else attrib_get k a'
  end.

(** ** Exceptions and outcomes *)

Inductive exn : Type :=
  | PanObjectMissing (msg : string)     (* pandevice.errors, the not-found class *)
  | PanDeviceXapiError (msg : string)   (* any other device or transport fault *)
  | TypeError (msg : string)            (* raised by the interpreter *)
  | RuntimeError (msg : string).        (* recursion limit of the interpreter *)


Inductive outcome (A : Type) : Type :=
  | Return (a : A)
  | Raise (e : exn).
Arguments Return {A} a.
Arguments Raise {A} e.

Definition returned {A} (o : outcome A) : bool :=
  match o with Return _ => true | Raise _ => false end.

(** [o is None] *)
Definition is_none {A} (o : option A) : bool :=
  match o with None => true | Some _ => false end.

(** ** The XPath constants of the class *)

Module XPath.

(** The character [34], written by its bits (least significant first). *)
Definition dquote : string :=
  String (Ascii.Ascii false true false false false true false false) EmptyString.

Definition PREDEFINED_ROOT_XPATH : string := "/config/predefined".
Definition ENTRY : string := "/entry[@name='%s']".
Definition SERVICE : string := "/service".
(* apps and containers share a namespace so we need to search both *)
Definition APPLICATION_CONTAINS_XPATH : string :=
  "//*[contains(local-name(), " +:+ dquote +:+ "application" +:+ dquote +:+ ")]".
Definition ALL_APPLICATION_XPATH : string :=
  PREDEFINED_ROOT_XPATH +:+ APPLICATION_CONTAINS_XPATH.
Definition SINGLE_APPLICATION_XPATH : string := ALL_APPLICATION_XPATH +:+ ENTRY.
Definition ALL_SERVICE_XPATH : string := PREDEFINED_ROOT_XPATH +:+ SERVICE.
Definition SINGLE_SERVICE_XPATH : string := ALL_SERVICE_XPATH +:+ ENTRY.

Fixpoint has_percent (s : string) : bool :=
  match s with
  | EmptyString => false
  | String c rest => Ascii.eqb c "%"%char || has_percent rest
  end.

(** [fmt % arg] for one string argument: the only conversion of [fmt], a
    [%s], is replaced by [arg], whose text is not scanned again. Python
    raises [TypeError] when [fmt] has no conversion (not all arguments
    converted) or a second one (not enough arguments); the other conversion
    characters do not occur in this class and are refused here. *)
Fixpoint percent (fmt arg : string) : outcome string :=
  match fmt with
  | EmptyString =>
      Raise (TypeError "not all arguments converted during string formatting")
  | String c rest =>
      if Ascii.eqb c "%"%char then
        match rest with
        | String d rest' =>
            if Ascii.eqb d "s"%char then
              if has_percent rest'
              then Raise (TypeError "not enough arguments for format string")
              else Return (arg +:+ rest')
            else Raise (TypeError "unsupported format character")
        | EmptyString => Raise (TypeError "incomplete format")
        end
      else
        match percent rest arg with
        | Return s => Return (String c s)
        | Raise e => Raise e
        end
  end.

End XPath.

(** ** The object model (module [objects])

    The classes [ServiceObject], [ApplicationObject] and
    [ApplicationContainer] are defined outside this module, so a kind of
    object is a parameter here. The cache builds an instance with
    [obj = objects.K(); obj.refresh(xml=elm)] and reads [obj.name]; nothing
    else of an object is used. Parsing is taken to return, and an instance
    to be true in a condition, as an instance of a class without
    [__nonzero__] and [__len__] is: [if obj] then tests [obj is not None]. *)

Class ObjectKind (O : Type) : Type := {
  refresh : Element → O;
  name : O → string
}.

(** ** Iteration over [set(names)]

    The order in which a Python set yields its members is not specified;
    it yields every distinct member once. *)

Class SetOrder : Type := {
  set_iter : list string → list string;
  set_iter_NoDup : ∀ names, NoDup (set_iter names);
  set_iter_elem : ∀ names n, n ∈ set_iter names ↔ n ∈ names
}.

(** ** The cache object *)

Record Predefined (Svc App Ctr : Type) : Type := {
  service_objects : gmap string Svc;
  application_objects : gmap string App;
  application_container_objects : gmap string Ctr
}.
Arguments service_objects {Svc App Ctr} _.
Arguments application_objects {Svc App Ctr} _.
Arguments application_container_objects {Svc App Ctr} _.

(** [Predefined.__init__]: the three dictionaries start empty. *)
Definition init {Svc App Ctr : Type} : Predefined Svc App Ctr :=
  {| service_objects := ∅;
     application_objects := ∅;
     application_container_objects := ∅ |}.

(** The cache together with the log of the XPaths passed to
    [self.parent.xapi.get], oldest first. *)
Record World (Svc App Ctr : Type) : Type := {
  cache : Predefined Svc App Ctr;
  calls : list string
}.
Arguments cache {Svc App Ctr} _.
Arguments calls {Svc App Ctr} _.

(** The device behind the transport client: what [xapi.get(xpath)] answers
    after the calls made so far, a response root or an exception. *)
Definition Device : Type := list string → string → outcome Element.

(** ** Methods of [Predefined]

    A method is a function of the world that returns or raises, together
    with the world it leaves behind. *)

Definition M (Svc App Ctr X : Type) : Type := World Svc App Ctr → outcome X * World Svc App Ctr.

Declare Scope py_scope.
Delimit Scope py_scope with py.

Section Methods.

Context {Svc App Ctr : Type}.
Context `{!ObjectKind Svc, !ObjectKind App, !ObjectKind Ctr}.
Variable device : Device.

Abbreviation Cache := (Predefined Svc App Ctr).
Abbreviation W := (World Svc App Ctr).
Abbreviation Py := (M Svc App Ctr).

Definition ret {X} (x : X) : Py X := λ w, (Return x, w).

Definition raise {X} (e : exn) : Py X := λ w, (Raise e, w).

Definition bind {X Y} (m : Py X) (k : X → Py Y) : Py Y :=
  λ w, match m w with
       | (Return x, w') => k x w'
       | (Raise e, w') => (Raise e, w')
       end.

Notation "x <- m ;; k" := (bind m (λ x, k))
  (at level 100, m at next level, right associativity) : py_scope.
Notation "m ;;; k" := (bind m (λ _, k))
  (at level 100, right associativity) : py_scope.
Local Open Scope py_scope.

Definition lift {X} (o : outcome X) : Py X := λ w, (o, w).

Definition get_cache : Py Cache := λ w, (Return (cache w), w).

Definition modify_cache (f : Cache → Cache) : Py unit :=
  λ w, (Return tt, {| cache := f (cache w); calls := calls w |}).

(** [for x in l: body(x)] *)
Fixpoint for_each {X} (l : list X) (body : X → Py unit) : Py unit :=
  match l with
  | [] => ret tt
  | x :: l' => body x ;;; for_each l' body
  end.

(** [self.parent.xapi.get(xpath, retry_on_peer=False)] *)
Definition xapi_get (xpath : string) : Py Element :=
  λ w, (device (calls w) xpath,
        {| cache := cache w; calls := calls w ++ [xpath] |}).

(** [_get_xml]: the [result] child of the response root, [None] when the
    root has none. The message built first is not used. *)
Definition _get_xml (xpath : string) : Py (option Element) :=
  root <- xapi_get xpath ;;
  let elm := find "result" root in
  ret elm.

Definition has_functions (elm : Element) : bool :=
  bool_decide (is_Some (find "functions" elm)).

(** One turn of the loop of [_parse_application_xml]. *)
Definition store_application (elm : Element) (p : Cache) : Cache :=
  if has_functions elm then
    (* this is an ApplicationContainerObject *)
    let obj : Ctr := refresh elm in
    {| service_objects := service_objects p;
       application_objects := application_objects p;
       application_container_objects :=
         <[name obj := obj]> (application_container_objects p) |}
  else
    (* this is an ApplicationObject *)
    let obj : App := refresh elm in
    {| service_objects := service_objects p;
       application_objects := <[name obj := obj]> (application_objects p);
       application_container_objects := application_container_objects p |}.

(** One turn of the loop of [_parse_service_xml]. *)
Definition store_service (elm : Element) (p : Cache) : Cache :=
  let obj : Svc := refresh elm in
  {| service_objects := <[name obj := obj]> (service_objects p);
     application_objects := application_objects p;
     application_container_objects := application_container_objects p |}.

(** [for elm in xml] on [None] raises [TypeError]. *)
Definition iter (xml : option Element) : Py (list Element) :=
  match xml with
  | Some x => ret (elem_children x)
  | None => raise (TypeError "'NoneType' object is not iterable")
  end.

Definition _parse_application_xml (xml : option Element) : Py unit :=
  elms <- iter xml ;;
  for_each elms (λ elm, modify_cache (store_application elm)).

Definition _parse_service_xml (xml : option Element) : Py unit :=
  elms <- iter xml ;;
  for_each elms (λ elm, modify_cache (store_service elm)).

Definition refresh_application (nm : string) : Py unit :=
  xpath <- lift (XPath.percent XPath.SINGLE_APPLICATION_XPATH nm) ;;
  xml <- _get_xml xpath ;;
  _parse_application_xml xml.

Definition refresh_service (nm : string) : Py unit :=
  xpath <- lift (XPath.percent XPath.SINGLE_SERVICE_XPATH nm) ;;
  xml <- _get_xml xpath ;;
  _parse_service_xml xml.

Definition refreshall_applications : Py unit :=
  let xpath := XPath.ALL_APPLICATION_XPATH +:+ "/entry" in
  xml <- _get_xml xpath ;;
  _parse_application_xml xml.

Definition refreshall_services : Py unit :=
  let xpath := XPath.ALL_SERVICE_XPATH +:+ "/entry" in
  xml <- _get_xml xpath ;;
  _parse_service_xml xml.

Definition refreshall : Py unit :=
  (* first we clear all existing objects *)
  modify_cache (λ p, {| service_objects := service_objects p;
                        application_objects := ∅;
                        application_container_objects :=
                          application_container_objects p |}) ;;;
  modify_cache (λ p, {| service_objects := service_objects p;
                        application_objects := application_objects p;
                        application_container_objects := ∅ |}) ;;;
  modify_cache (λ p, {| service_objects := ∅;
                        application_objects := application_objects p;
                        application_container_objects :=
                          application_container_objects p |}) ;;;
  (* now we call the refresh methods *)
  refreshall_services ;;;
  refreshall_applications.

(** What [application] returns: an [ApplicationObject], an
    [ApplicationContainer], or [None]. *)
Definition AppResult : Type := option (App + Ctr).

(** The body of [application], with [self.application] as a parameter. *)
Definition application_body
    (self_application : string → bool → bool → Py AppResult)
    (nm : string) (refresh_if_none include_containers : bool) : Py AppResult :=
  p <- get_cache ;;
  let obj : AppResult := inl <$> application_objects p !! nm in
  let obj : AppResult :=
    if is_none obj && include_containers
    then inr <$> application_container_objects p !! nm
    else obj in
  if is_none obj && refresh_if_none then
    refresh_application nm ;;;
    (* recursive call but with no refresh *)
    self_application nm false include_containers
  else ret obj.

(** [application] calls itself; [depth] bounds the nesting of calls as the
    interpreter's recursion limit does. *)
Fixpoint application_at (depth : nat) (nm : string)
    (refresh_if_none include_containers : bool) : Py AppResult :=
  match depth with
  | 0 => raise (RuntimeError "maximum recursion depth exceeded")
  | S d =>
      application_body (application_at d) nm refresh_if_none include_containers
  end.

Definition application : string → bool → bool → Py AppResult :=
  application_at 2.

(** The body of [service], with [self.service] as a parameter. *)
Definition service_body
    (self_service : string → bool → Py (option Svc))
    (nm : string) (refresh_if_none : bool) : Py (option Svc) :=
  p <- get_cache ;;
  let obj := service_objects p !! nm in
  if is_none obj && refresh_if_none then
    refresh_service nm ;;;
    (* recursive call but with no refresh *)
    self_service nm false
  else ret obj.

Fixpoint service_at (depth : nat) (nm : string) (refresh_if_none : bool)
    : Py (option Svc) :=
  match depth with
  | 0 => raise (RuntimeError "maximum recursion depth exceeded")
  | S d => service_body (service_at d) nm refresh_if_none
  end.

Definition service : string → bool → Py (option Svc) := service_at 2.

(** [objs = []; for name in set(names): obj = get(name); if obj:
    objs.append(obj)], shared by [applications] and [services]; [objs] is
    the list built so far. *)
Fixpoint collect {X} (get : string → Py (option X)) (ns : list string)
    (objs : list X) : Py (list X) :=
  match ns with
  | [] => ret objs
  | n :: ns' =>
      obj <- get n ;;
      match obj with
      | Some o => collect get ns' (objs ++ [o])
      | None => collect get ns' objs
      end
  end.

Context `{!SetOrder}.

Definition applications (names : list string)
    (refresh_if_none include_containers : bool) : Py (list (App + Ctr)) :=
  collect (λ n, application n refresh_if_none include_containers)
          (set_iter names) [].

Definition services (names : list string) (refresh_if_none : bool)
    : Py (list Svc) :=
  collect (λ n, service n refresh_if_none) (set_iter names) [].

End Methods.

Arguments ret {Svc App Ctr X} x _ /.
Arguments raise {Svc App Ctr X} e _ /.
Arguments lift {Svc App Ctr X} o _ /.
Arguments get_cache {Svc App Ctr} _ /.
Arguments modify_cache {Svc App Ctr} f _ /.

Notation "x <- m ;; k" := (bind m (λ x, k))
  (at level 100, m at next level, right associativity) : py_scope.
Notation "m ;;; k" := (bind m (λ _, k))
  (at level 100, right associativity) : py_scope.

(** ** Vocabulary of the statements *)

(** The entries a response carries: the children of its [result] element.
    A response without [result] cannot be iterated. *)
Definition fetched (resp : outcome Element) : outcome (list Element) :=
  match resp with
  | Raise e => Raise e
  | Return root =>
      match find "result" root with
      | Some r => Return (elem_children r)
      | None => Raise (TypeError "'NoneType' object is not iterable")
      end
  end.

Definition entries (resp : outcome Element) : list Element :=
  match fetched resp with Return elms => elms | Raise _ => [] end.

(** The world after one more transport call. *)
Definition logged {Svc App Ctr} (xpath : string) (w : World Svc App Ctr)
    : World Svc App Ctr :=
  {| cache := cache w; calls := calls w ++ [xpath] |}.

Definition with_cache {Svc App Ctr} (p : Predefined Svc App Ctr)
    (w : World Svc App Ctr) : World Svc App Ctr :=
  {| cache := p; calls := calls w |}.

(** The paths as the device expects them. *)
Definition single_service_xpath (nm : string) : string :=
  "/config/predefined/service/entry[@name='" +:+ nm +:+ "']".

Definition all_service_xpath : string := "/config/predefined/service/entry".

Definition single_application_xpath (nm : string) : string :=
  "/config/predefined//*[contains(local-name(), " +:+ XPath.dquote
  +:+ "application" +:+ XPath.dquote +:+ ")]/entry[@name='" +:+ nm +:+ "']".

Definition all_application_xpath : string :=
  "/config/predefined//*[contains(local-name(), " +:+ XPath.dquote
  +:+ "application" +:+ XPath.dquote +:+ ")]/entry".

(** A look-up in the cache alone: the application of that name, else, when
    containers are included, the container of that name. *)
Definition cached_application {Svc App Ctr} (p : Predefined Svc App Ctr)
    (nm : string) (include_containers : bool) : option (App + Ctr) :=
  match application_objects p !! nm with
  | Some a => Some (inl a)
  | None =>
      if include_containers
      then inr <$> application_container_objects p !! nm
      else None
  end.

(** The name under which an entry of an application response is stored. *)
Definition application_entry_name {App Ctr}
    `{!ObjectKind App, !ObjectKind Ctr} (elm : Element) : string :=
  if has_functions elm then name (refresh elm : Ctr)
  else name (refresh elm : App).

(** The batch look-ups as the specification words them: one look-up per
    name in turn, then the results that are not [None]. *)
Fixpoint each {Svc App Ctr X} (get : string → M Svc App Ctr (option X))
    (ns : list string) : M Svc App Ctr (list (option X)) :=
  match ns with
  | [] => ret []
  | n :: ns' =>
      (obj <- get n ;; objs <- each get ns' ;; ret (obj :: objs))%py
  end.

Definition found_of {Svc App Ctr X}
    (get : string → M Svc App Ctr (option X)) (ns : list string)
    : M Svc App Ctr (list X) :=
  (objs <- each get ns ;; ret (omap id objs))%py.
Arguments application_entry_name App Ctr {_ _} elm.

(** [d[obj.name] = obj] for the object parsed from [elm]. *)
Definition put {O} `{!ObjectKind O} (m : gmap string O) (elm : Element)
    : gmap string O :=
  let obj := refresh elm in <[name obj := obj]> m.

(** What a refresh does to the world, in one step: the call is logged, and
    the entries of the response, if it has any, are stored in turn. *)
Definition fetch_with {Svc App Ctr} (device : Device)
    (store : Element → Predefined Svc App Ctr → Predefined Svc App Ctr)
    (xpath : string) (w : World Svc App Ctr)
    : outcome unit * World Svc App Ctr :=
  let resp := device (calls w) xpath in
  (match fetched resp with Return _ => Return tt | Raise e => Raise e end,
   {| cache := foldl (flip store) (cache w) (entries resp);
      calls := calls w ++ [xpath] |}).

(** Every key of the three dictionaries is the name of the object stored
    under it. *)
Definition well_keyed {Svc App Ctr}
    `{!ObjectKind Svc, !ObjectKind App, !ObjectKind Ctr}
    (p : Predefined Svc App Ctr) : Prop :=
  map_Forall (λ k (o : Svc), name o = k) (service_objects p)
  ∧ map_Forall (λ k (o : App), name o = k) (application_objects p)
  ∧ map_Forall (λ k (o : Ctr), name o = k) (application_container_objects p).

(** No key of the three dictionaries is lost from [p] to [p']. *)
Definition keeps_keys {Svc App Ctr} (p p' : Predefined Svc App Ctr) : Prop :=
  (∀ k, is_Some (service_objects p !! k) → is_Some (service_objects p' !! k))
  ∧ (∀ k, is_Some (application_objects p !! k) →
          is_Some (application_objects p' !! k))
  ∧ (∀ k, is_Some (application_container_objects p !! k) →
          is_Some (application_container_objects p' !! k)).

(** The last entry of a response that parses, as an object of kind [O], to
    the name [k]. *)
Definition last_named (O : Type) `{!ObjectKind O} (k : string)
    (elms : list Element) : option Element :=
  last (filter (λ elm, name (refresh elm : O) = k) elms).

(** What a key holds once the entries [elms] are stored over [old]: the
    object of the last entry that carries the key, else the old one. *)
Definition after_entries {O} `{!ObjectKind O} (k : string)
    (elms : list Element) (old : gmap string O) : option O :=
  match last_named O k elms with
  | Some elm => Some (refresh elm)
  | None => old !! k
  end.

(** A response root that has no [result] child. *)
Definition without_result (resp : outcome Element) : Prop :=
  ∃ root, resp = Return root ∧ find "result" root = None.

(** From [w] to [w'] nothing is forgotten: no key is lost and the log is
    only appended to. *)
Definition extends {Svc App Ctr} (w w' : World Svc App Ctr) : Prop :=
  keeps_keys (cache w) (cache w') ∧ calls w `prefix_of` calls w'.

(** The name of what [application] returns. *)
Definition result_name {App Ctr} `{!ObjectKind App, !ObjectKind Ctr}
    (o : App + Ctr) : string :=
  match o with inl a => name a | inr c => name c end.

(** ** A concrete object model and concrete devices *)

Module Demo.

(** Modelled from the spec: the classes of the object model, each with a
    [refresh(xml)] that parses one entry into an object exposing a [name].
    The object keeps the [name] attribute of the entry and the entry. *)
Inductive Kind : Type := KService | KApplication | KContainer.

Record PanObject (k : Kind) : Type := {
  pan_name : string;
  pan_xml : Element
}.
Arguments pan_name {k} _.
Arguments pan_xml {k} _.

Definition parse (k : Kind) (elm : Element) : PanObject k :=
  {| pan_name := default EmptyString (attrib_get "name" (elem_attrib elm));
     pan_xml := elm |}.

#[global] Instance pan_object_kind (k : Kind) : ObjectKind (PanObject k) :=
  {| refresh := parse k; name := pan_name |}.

Abbreviation ServiceObject := (PanObject KService).
Abbreviation ApplicationObject := (PanObject KApplication).
Abbreviation ApplicationContainer := (PanObject KContainer).

(** Members in the order of their first occurrence. *)
#[global] Instance first_occurrence : SetOrder :=
  {| set_iter := remove_dups;
     set_iter_NoDup := NoDup_remove_dups;
     set_iter_elem := λ names n, elem_of_remove_dups names n |}.

Definition entry (nm : string) (children : list Element) : Element :=
  Elem "entry" [("name", nm)] EmptyString children.

Definition response (elms : list Element) : Element :=
  Elem "response" [("status", "success")] EmptyString [Elem "result" [] EmptyString elms].

Definition tcp80 : Element :=
  entry "service-http" [Elem "protocol" [] EmptyString [Elem "tcp" [] EmptyString [Elem "port" [] "80" []]]].

Definition ssh : Element :=
  entry "ssh" [Elem "category" [] "networking" []].

Definition web_browsing : Element :=
  entry "web-browsing" [Elem "functions" [] EmptyString [Elem "member" [] "http-proxy" []]].

(** A device that knows the service [service-http], the application [ssh]
    and the container [web-browsing], answers a query for anything else
    with an empty result, and answers the bulk queries with all it knows. *)
Definition quiet_device : Device := λ _ xpath,
  if String.eqb xpath (single_service_xpath "service-http") then Return (response [tcp80])
  else if String.eqb xpath all_service_xpath then Return (response [tcp80])
  else if String.eqb xpath (single_application_xpath "ssh") then Return (response [ssh])
  else if String.eqb xpath (single_application_xpath "web-browsing")
       then Return (response [web_browsing])
  else if String.eqb xpath all_application_xpath
       then Return (response [ssh; web_browsing])
  else Return (response []).

(** The same device behind a transport client that reports an unknown
    single name with an exception of the not-found class. *)
Definition strict_device : Device := λ _ xpath,
  if String.eqb xpath (single_service_xpath "service-http") then Return (response [tcp80])
  else if String.eqb xpath all_service_xpath then Return (response [tcp80])
  else if String.eqb xpath (single_application_xpath "ssh") then Return (response [ssh])
  else if String.eqb xpath (single_application_xpath "web-browsing")
       then Return (response [web_browsing])
  else if String.eqb xpath all_application_xpath
       then Return (response [ssh; web_browsing])
  else Raise (PanObjectMissing "No such node").

Abbreviation DemoWorld :=
  (World ServiceObject ApplicationObject ApplicationContainer).

(** A fresh cache and no call made yet. *)
Definition fresh : DemoWorld := {| cache := init; calls := [] |}.

(** A cache that holds a service and an application the device no longer
    has, and the container [web-browsing]. *)
Definition stale : DemoWorld :=
  {| cache :=
       {| service_objects := {[ "old-svc" := parse KService (entry "old-svc" []) ]};
          application_objects := {[ "old-app" := parse KApplication (entry "old-app" []) ]};
          application_container_objects :=
            {[ "web-browsing" := parse KContainer web_browsing ]} |};
     calls := [] |}.

End Demo.

(** Further devices and caches. *)
Module Scenario.

(** A device whose service query succeeds and whose application queries
    fail. *)
Definition half_device : Device := λ _ xpath,
  if String.eqb xpath all_service_xpath
  then Return (Demo.response [Demo.tcp80])
  else Raise (PanDeviceXapiError "timeout").

(** A device that answers without a [result] element. *)
Definition bare_device : Device := λ _ _,
  Return (Elem "response" [("status", "success")] EmptyString []).

(** A device that lists the same service name twice. *)
Definition tcp8080 : Element :=
  Demo.entry "service-http"
    [Elem "protocol" [] EmptyString
       [Elem "tcp" [] EmptyString [Elem "port" [] "8080" []]]].

Definition twice_device : Device := λ _ _,
  Return (Demo.response [Demo.tcp80; tcp8080]).

(** A cache that holds [web-browsing] as a plain application, while the
    device of [Demo] has it as a container. *)
Definition reclassified : Demo.DemoWorld :=
  {| cache :=
       {| service_objects := ∅;
          application_objects :=
            {[ "web-browsing" :=
                 Demo.parse Demo.KApplication (Demo.entry "web-browsing" []) ]};
          application_container_objects := ∅ |};
     calls := [] |}.

Lemma reversed_NoDup (names : list string) :
  NoDup (reverse (remove_dups names)).
Proof. rewrite reverse_Permutation. apply NoDup_remove_dups. Qed.

Lemma reversed_elem (names : list string) n :
  n ∈ reverse (remove_dups names) ↔ n ∈ names.
Proof. by rewrite elem_of_reverse, elem_of_remove_dups. Qed.

(** Members in the reverse of the order of their first occurrence. *)
Definition reversed_order : SetOrder :=
  {| set_iter := λ names, reverse (remove_dups names);
     set_iter_NoDup := reversed_NoDup;
     set_iter_elem := reversed_elem |}.

End Scenario.

(** ** Properties *)

Section Properties.

Context {Svc App Ctr : Type}.
Context `{!ObjectKind Svc, !ObjectKind App, !ObjectKind Ctr}.
Variable device : Device.

Abbreviation Cache := (Predefined Svc App Ctr).
Abbreviation W := (World Svc App Ctr).

Local Open Scope py_scope.

Lemma percent_single_service nm :
  XPath.percent XPath.SINGLE_SERVICE_XPATH nm = Return (single_service_xpath nm).
Proof. reflexivity. Qed.

Lemma percent_single_application nm :
  XPath.percent XPath.SINGLE_APPLICATION_XPATH nm
  = Return (single_application_xpath nm).
Proof. reflexivity. Qed.

Lemma for_each_modify (store : Element → Cache → Cache) elms (w : W) :
  for_each elms (λ elm, modify_cache (store elm)) w
  = (Return tt, with_cache (foldl (flip store) (cache w) elms) w).
Proof.
  revert w. induction elms as [|elm elms IH]; intros [p cs]; [done|].
  cbn [for_each]. unfold bind at 1. cbn [modify_cache].
  rewrite IH. reflexivity.
Qed.

Lemma get_then_parse (store : Element → Cache → Cache) xpath (w : W) :
  (xml <- _get_xml device xpath ;;
   elms <- iter xml ;;
   for_each elms (λ elm, modify_cache (store elm))) w
  = fetch_with device store xpath w.
Proof.
  unfold fetch_with, entries, fetched, _get_xml, xapi_get, bind, iter.
  destruct (device (calls w) xpath) as [root|e]; [|done].
  cbn. destruct (find "result" root) as [r|]; [|done].
  cbn. rewrite for_each_modify. reflexivity.
Qed.

Lemma refresh_application_fetch nm (w : W) :
  refresh_application device nm w
  = fetch_with device store_application (single_application_xpath nm) w.
Proof.
  unfold refresh_application, _parse_application_xml.
  unfold bind at 1. rewrite percent_single_application. cbn [lift].
  apply get_then_parse.
Qed.

Lemma refresh_service_fetch nm (w : W) :
  refresh_service device nm w
  = fetch_with device store_service (single_service_xpath nm) w.
Proof.
  unfold refresh_service, _parse_service_xml.
  unfold bind at 1. rewrite percent_single_service. cbn [lift].
  apply get_then_parse.
Qed.

Lemma refreshall_applications_fetch (w : W) :
  refreshall_applications device w
  = fetch_with device store_application all_application_xpath w.
Proof. apply (get_then_parse store_application). Qed.

Lemma refreshall_services_fetch (w : W) :
  refreshall_services device w = fetch_with device store_service all_service_xpath w.
Proof. apply (get_then_parse store_service). Qed.

(** *** The look-ups *)

Lemma application_body_cached self nm r ic (w : W) :
  application_body device self nm r ic w
  = if is_none (cached_application (cache w) nm ic) && r
    then (refresh_application device nm ;;; self nm false ic) w
    else (Return (cached_application (cache w) nm ic), w).
Proof.
  unfold application_body, cached_application, bind at 1. cbn [get_cache].
  destruct (application_objects (cache w) !! nm) as [a|]; cbn.
  - reflexivity.
  - destruct ic; cbn; [|by destruct r].
    destruct (application_container_objects (cache w) !! nm); cbn;
      [reflexivity | by destruct r].
Qed.

Lemma application_at_no_refresh d nm ic (w : W) :
  application_at device (S d) nm false ic w
  = (Return (cached_application (cache w) nm ic), w).
Proof.
  cbn [application_at]. rewrite application_body_cached.
  by rewrite andb_false_r.
Qed.

Lemma service_body_cached self nm r (w : W) :
  service_body device self nm r w
  = if is_none (service_objects (cache w) !! nm) && r
    then (refresh_service device nm ;;; self nm false) w
    else (Return (service_objects (cache w) !! nm), w).
Proof.
  unfold service_body, bind at 1. cbn [get_cache].
  by destruct (is_none _ && r).
Qed.

Lemma service_at_no_refresh d nm (w : W) :
  service_at device (S d) nm false w
  = (Return (service_objects (cache w) !! nm), w).
Proof.
  cbn [service_at]. rewrite service_body_cached. by rewrite andb_false_r.
Qed.

(** The nesting never goes beyond two calls: a larger limit changes
    nothing, and [application] solves the recursive equation of the source. *)
Lemma application_at_enough d nm r ic (w : W) :
  application_at device (S (S d)) nm r ic w = application device nm r ic w.
Proof.
  unfold application. cbn [application_at].
  rewrite !application_body_cached.
  destruct (is_none _ && r); [|reflexivity].
  unfold bind. destruct (refresh_application device nm w) as [[[]|e] w']; [|done].
  by rewrite !application_body_cached, !andb_false_r.
Qed.

Lemma application_unfold nm r ic (w : W) :
  application device nm r ic w
  = application_body device (application device) nm r ic w.
Proof.
  rewrite <- (application_at_enough 1). cbn [application_at].
  rewrite 2!application_body_cached.
  destruct (is_none _ && r); [|reflexivity].
  unfold bind. destruct (refresh_application device nm w) as [[[]|e] w']; [|done].
  rewrite <- (application_at_enough 0 nm false ic w').
  by rewrite !application_at_no_refresh, application_body_cached, andb_false_r.
Qed.

Lemma service_at_enough d nm r (w : W) :
  service_at device (S (S d)) nm r w = service device nm r w.
Proof.
  unfold service. cbn [service_at].
  rewrite !service_body_cached.
  destruct (is_none _ && r); [|reflexivity].
  unfold bind. destruct (refresh_service device nm w) as [[[]|e] w']; [|done].
  by rewrite !service_body_cached, !andb_false_r.
Qed.

Lemma service_unfold nm r (w : W) :
  service device nm r w = service_body device (service device) nm r w.
Proof.
  rewrite <- (service_at_enough 1). cbn [service_at].
  rewrite 2!service_body_cached.
  destruct (is_none _ && r); [|reflexivity].
  unfold bind. destruct (refresh_service device nm w) as [[[]|e] w']; [|done].
  rewrite <- (service_at_enough 0 nm false w').
  by rewrite !service_at_no_refresh, service_body_cached, andb_false_r.
Qed.

Lemma application_no_refresh nm ic (w : W) :
  application device nm false ic w
  = (Return (cached_application (cache w) nm ic), w).
Proof. apply application_at_no_refresh. Qed.

Lemma service_no_refresh nm (w : W) :
  service device nm false w = (Return (service_objects (cache w) !! nm), w).
Proof. apply service_at_no_refresh. Qed.

Lemma application_hit nm r ic (w : W) :
  is_Some (cached_application (cache w) nm ic) →
  application device nm r ic w
  = (Return (cached_application (cache w) nm ic), w).
Proof.
  intros [o Ho]. rewrite application_unfold, application_body_cached, Ho.
  reflexivity.
Qed.

Lemma application_miss nm ic (w : W) :
  cached_application (cache w) nm ic = None →
  application device nm true ic w
  = (refresh_application device nm ;;; application device nm false ic) w.
Proof.
  intros Hmiss. rewrite application_unfold, application_body_cached, Hmiss.
  reflexivity.
Qed.

Lemma service_hit nm r (w : W) :
  is_Some (service_objects (cache w) !! nm) →
  service device nm r w = (Return (service_objects (cache w) !! nm), w).
Proof.
  intros [o Ho]. rewrite service_unfold, service_body_cached, Ho.
  reflexivity.
Qed.

Lemma service_miss nm (w : W) :
  service_objects (cache w) !! nm = None →
  service device nm true w
  = (refresh_service device nm ;;; service device nm false) w.
Proof.
  intros Hmiss. rewrite service_unfold, service_body_cached, Hmiss.
  reflexivity.
Qed.

(** C10: with [refresh_if_none=False] a look-up is a pure read. Both
    [application(name, False, b)] and [service(name, False)] return what the
    cache holds and hand back the very world they were given: the log of
    transport calls has no new entry and the three dictionaries are the
    same. *)
Theorem lookup_without_refresh_is_pure nm b (w : W) :
  application device nm false b w
  = (Return (cached_application (cache w) nm b), w)
  ∧ service device nm false w
    = (Return (service_objects (cache w) !! nm), w).
Proof. split; [apply application_no_refresh | apply service_no_refresh]. Qed.

(** C7: a name held only by the container dictionary is found when
    containers are included and is absent when they are not; and when the
    look-up without containers goes to the device, the retry after the
    refresh is again without containers, so that it answers from the
    application dictionary alone. *)
Theorem container_fallback nm c (w : W) :
  application_objects (cache w) !! nm = None →
  application_container_objects (cache w) !! nm = Some c →
  (∀ r, application device nm r true w = (Return (Some (inr c)), w))
  ∧ application device nm false false w = (Return None, w)
  ∧ (∀ ic (w0 : W), cached_application (cache w0) nm ic = None →
       application device nm true ic w0
       = (refresh_application device nm ;;;
          application device nm false ic) w0)
  ∧ (∀ w', refresh_application device nm w = (Return tt, w') →
       application device nm true false w
       = (Return (inl <$> application_objects (cache w') !! nm), w')).
Proof.
  intros Happ Hctr. repeat split.
  - intros r. rewrite application_hit; unfold cached_application;
      rewrite Happ, Hctr; [reflexivity | by eexists].
  - rewrite application_no_refresh. unfold cached_application.
    by rewrite Happ.
  - intros ic w0. apply application_miss.
  - intros w' Hw'. rewrite application_miss
      by (unfold cached_application; by rewrite Happ).
    unfold bind. rewrite Hw', application_no_refresh.
    unfold cached_application.
    by destruct (application_objects (cache w') !! nm).
Qed.

Lemma fetch_with_calls store xpath (w : W) :
  calls (fetch_with device store xpath w).2 = calls w ++ [xpath].
Proof. reflexivity. Qed.

Lemma cached_application_None (p : Cache) nm ic :
  application_objects p !! nm = None →
  application_container_objects p !! nm = None →
  cached_application p nm ic = None.
Proof.
  intros Happ Hctr. unfold cached_application. rewrite Happ, Hctr.
  by destruct ic.
Qed.

(** C1: for a name in neither the application nor the container dictionary,
    [application(name)] with [refresh_if_none=True] is one
    [refresh_application(name)] followed by one look-up with
    [refresh_if_none=False]. The log gains exactly one transport call, the
    one of that refresh. When the refresh returns, the answer is what the
    cache then holds, so [None] if the name is still absent; when the
    refresh raises, so does the look-up. *)
Theorem single_retry nm ic (w : W) :
  application_objects (cache w) !! nm = None →
  application_container_objects (cache w) !! nm = None →
  application device nm true ic w
  = (refresh_application device nm ;;; application device nm false ic) w
  ∧ calls (application device nm true ic w).2
    = calls w ++ [single_application_xpath nm]
  ∧ (∀ w', refresh_application device nm w = (Return tt, w') →
       application device nm true ic w
       = (Return (cached_application (cache w') nm ic), w')
       ∧ (application_objects (cache w') !! nm = None →
          application_container_objects (cache w') !! nm = None →
          application device nm true ic w = (Return None, w')))
  ∧ (∀ e w', refresh_application device nm w = (Raise e, w') →
       application device nm true ic w = (Raise e, w')).
Proof.
  intros Happ Hctr.
  pose proof (cached_application_None _ _ ic Happ Hctr) as Hmiss.
  rewrite (application_miss _ _ _ Hmiss). split; [reflexivity|].
  unfold bind. split; [|split].
  - pose proof (fetch_with_calls store_application
                  (single_application_xpath nm) w) as Hlog.
    rewrite <- refresh_application_fetch in Hlog.
    destruct (refresh_application device nm w) as [[[]|e] w']; [|done].
    by rewrite application_no_refresh.
  - intros w' ->. rewrite application_no_refresh. split; [reflexivity|].
    intros Happ' Hctr'. by rewrite cached_application_None.
  - by intros e w' ->.
Qed.


(** C8: the paths handed to the transport client. Each refresh makes one
    call, and its path is the constant of the class with the name put in
    place of the conversion: the service subtree, or every element under
    the root whose local name contains [application]; [/entry] for all
    entries, [/entry[@name='...']] for one. *)
Theorem xpaths_passed_to_transport nm (w : W) :
  calls (refresh_service device nm w).2
  = calls w ++ ["/config/predefined/service/entry[@name='" +:+ nm +:+ "']"]
  ∧ calls (refreshall_services device w).2
    = calls w ++ ["/config/predefined/service/entry"]
  ∧ calls (refresh_application device nm w).2
    = calls w ++ ["/config/predefined//*[contains(local-name(), "
                  +:+ XPath.dquote +:+ "application" +:+ XPath.dquote
                  +:+ ")]/entry[@name='" +:+ nm +:+ "']"]
  ∧ calls (refreshall_applications device w).2
    = calls w ++ ["/config/predefined//*[contains(local-name(), "
                  +:+ XPath.dquote +:+ "application" +:+ XPath.dquote
                  +:+ ")]/entry"].
Proof.
  rewrite refresh_service_fetch, refreshall_services_fetch,
    refresh_application_fetch, refreshall_applications_fetch.
  repeat split.
Qed.

(** *** Storing the entries of a response *)

Lemma foldl_store_service elms (p : Cache) :
  service_objects (foldl (flip store_service) p elms)
  = foldl put (service_objects p) elms
  ∧ application_objects (foldl (flip store_service) p elms)
    = application_objects p
  ∧ application_container_objects (foldl (flip store_service) p elms)
    = application_container_objects p.
Proof.
  revert p. induction elms as [|elm elms IH]; intros p; [done|].
  cbn [foldl]. destruct (IH (flip store_service p elm)) as (-> & -> & ->).
  done.
Qed.

Lemma foldl_store_application elms (p : Cache) :
  application_container_objects (foldl (flip store_application) p elms)
  = foldl put (application_container_objects p)
      (filter (λ elm, is_Some (find "functions" elm)) elms)
  ∧ application_objects (foldl (flip store_application) p elms)
    = foldl put (application_objects p)
        (filter (λ elm, find "functions" elm = None) elms)
  ∧ service_objects (foldl (flip store_application) p elms)
    = service_objects p.
Proof.
  revert p. induction elms as [|elm elms IH]; intros p; [done|].
  cbn [foldl]. destruct (IH (flip store_application p elm)) as (-> & -> & ->).
  rewrite !filter_cons. unfold flip, store_application, has_functions.
  destruct (find "functions" elm) as [f|] eqn:Hf.
  - rewrite bool_decide_true by (by eexists).
    rewrite decide_True by (by eexists). rewrite decide_False by done.
    done.
  - rewrite bool_decide_false by (by intros [? ?]).
    rewrite decide_False by (by intros [? ?]). rewrite decide_True by done.
    done.
Qed.

Lemma foldl_put_lookup {O} `{!ObjectKind O} elms (m : gmap string O) k o :
  foldl put m elms !! k = Some o →
  m !! k = Some o ∨ ∃ elm, elm ∈ elms ∧ o = refresh elm ∧ name o = k.
Proof.
  revert m. induction elms as [|elm elms IH]; intros m; [by left|].
  cbn [foldl]. intros Hk. destruct (IH _ Hk) as [Hm|(e & He & Ho & Hn)].
  - unfold put in Hm. destruct (decide (name (refresh elm) = k)) as [Heq|Hne].
    + rewrite Heq, lookup_insert_eq in Hm. injection Hm as <-.
      right. exists elm. split; [left | done].
    + rewrite lookup_insert_ne in Hm by done. by left.
  - right. exists e. split; [by right | done].
Qed.

Lemma foldl_put_frame {O} `{!ObjectKind O} elms (m : gmap string O) k :
  (∀ elm, elm ∈ elms → name (refresh elm : O) ≠ k) →
  foldl put m elms !! k = m !! k.
Proof.
  revert m. induction elms as [|elm elms IH]; intros m Hother; [done|].
  cbn [foldl]. rewrite IH by (intros e He; apply Hother; by right).
  unfold put. apply lookup_insert_ne, Hother. left.
Qed.

Lemma foldl_put_keeps {O} `{!ObjectKind O} elms (m : gmap string O) k :
  is_Some (m !! k) → is_Some (foldl put m elms !! k).
Proof.
  revert m. induction elms as [|elm elms IH]; intros m Hk; [done|].
  cbn [foldl]. apply IH. unfold put. rewrite lookup_insert.
  by case_decide.
Qed.

Lemma foldl_put_named {O} `{!ObjectKind O} elms (m : gmap string O) k :
  (∃ elm, elm ∈ elms ∧ name (refresh elm : O) = k) →
  is_Some (foldl put m elms !! k).
Proof.
  revert m. induction elms as [|elm elms IH]; intros m (e & He & Hn).
  - by apply elem_of_nil in He.
  - cbn [foldl]. apply elem_of_cons in He as [->|He].
    + apply foldl_put_keeps. unfold put. rewrite Hn, lookup_insert_eq.
      by eexists.
    + apply IH. by exists e.
Qed.

(** C9: when the device returns the object of [X], two [service(X)] in a
    row fetch at most once. The first returns the object and leaves it in
    the service dictionary; the second returns the same object from the
    cache and hands the world back as it was, without a transport call. *)
Theorem service_pull_through nm elms (w : W) :
  fetched (device (calls w) (single_service_xpath nm)) = Return elms →
  (∃ elm, elm ∈ elms ∧ name (refresh elm : Svc) = nm) →
  ∃ o w1,
    service device nm true w = (Return (Some o), w1)
    ∧ service_objects (cache w1) !! nm = Some o
    ∧ service device nm true w1 = (Return (Some o), w1)
    ∧ (calls w1 = calls w ∨ calls w1 = calls w ++ [single_service_xpath nm]).
Proof.
  intros Hfetch Hnamed.
  destruct (service_objects (cache w) !! nm) as [o|] eqn:Hcached.
  - exists o, w. rewrite service_hit by (by eexists). rewrite Hcached.
    split; [reflexivity|]. split; [reflexivity|]. split; [reflexivity|].
    by left.
  - rewrite (service_miss _ _ Hcached). unfold bind.
    rewrite refresh_service_fetch. unfold fetch_with, entries.
    rewrite Hfetch. rewrite service_no_refresh. cbn [cache calls].
    destruct (foldl_store_service elms (cache w)) as (Hsvc & _ & _).
    destruct (foldl_put_named elms (service_objects (cache w)) nm Hnamed)
      as [o Ho].
    rewrite <- Hsvc in Ho. exists o. eexists. rewrite Ho.
    split; [reflexivity|]. split; [exact Ho|]. split; [|by right].
    rewrite service_hit by (cbn; by eexists). cbn. by rewrite Ho.
Qed.

(** C3: how an application refresh files the entries of a response. The
    entries with a [functions] child, in order, go to the container
    dictionary, each under the name of the container parsed from it; the
    entries without one go to the application dictionary in the same way.
    An entry changes only the dictionary of its kind, and the service
    dictionary and the log are as before. *)
Theorem container_classification xml (w : W) :
  (∀ elm (p : Cache),
     (is_Some (find "functions" elm) →
        application_container_objects (store_application elm p)
        = <[name (refresh elm : Ctr) := refresh elm]>
            (application_container_objects p)
        ∧ application_objects (store_application elm p)
          = application_objects p)
     ∧ (find "functions" elm = None →
        application_objects (store_application elm p)
        = <[name (refresh elm : App) := refresh elm]> (application_objects p)
        ∧ application_container_objects (store_application elm p)
          = application_container_objects p)
     ∧ service_objects (store_application elm p) = service_objects p)
  ∧ (_parse_application_xml (Some xml) w).1 = Return tt
  ∧ application_container_objects
      (cache (_parse_application_xml (Some xml) w).2)
    = foldl put (application_container_objects (cache w))
        (filter (λ elm, is_Some (find "functions" elm)) (elem_children xml))
  ∧ application_objects (cache (_parse_application_xml (Some xml) w).2)
    = foldl put (application_objects (cache w))
        (filter (λ elm, find "functions" elm = None) (elem_children xml))
  ∧ service_objects (cache (_parse_application_xml (Some xml) w).2)
    = service_objects (cache w)
  ∧ calls (_parse_application_xml (Some xml) w).2 = calls w.
Proof.
  split.
  - intros elm p. unfold store_application, has_functions.
    destruct (find "functions" elm) as [f|] eqn:Hf.
    + rewrite bool_decide_true by (by eexists).
      split; [done|]. split; [by intros ?|done].
    + rewrite bool_decide_false by (by intros [? ?]).
      split; [by intros [? ?]|]. split; [done|done].
  - unfold _parse_application_xml, bind. cbn [iter ret].
    rewrite for_each_modify. cbn [fst snd with_cache cache calls].
    destruct (foldl_store_application (elem_children xml) (cache w))
      as (-> & -> & ->).
    done.
Qed.

(** *** The bulk refreshes *)

Lemma refreshall_clear (w : W) :
  refreshall device w
  = (refreshall_services device ;;; refreshall_applications device)
      (with_cache init w).
Proof. reflexivity. Qed.

Lemma entries_raise resp e : fetched resp = Raise e → entries resp = [].
Proof. unfold entries. by intros ->. Qed.

Lemma refreshall_world (w : W) :
  let svc_resp := device (calls w) all_service_xpath in
  let app_resp :=
    device (calls w ++ [all_service_xpath]) all_application_xpath in
  (refreshall device w).2
  = if returned (fetched svc_resp)
    then {| cache := foldl (flip store_application)
                       (foldl (flip store_service) init (entries svc_resp))
                       (entries app_resp);
            calls := (calls w ++ [all_service_xpath])
                     ++ [all_application_xpath] |}
    else {| cache := init; calls := calls w ++ [all_service_xpath] |}.
Proof.
  cbn zeta. rewrite refreshall_clear. unfold bind.
  rewrite refreshall_services_fetch. unfold fetch_with at 1.
  cbn [with_cache cache calls].
  destruct (fetched (device (calls w) all_service_xpath)) as [elms|e] eqn:Hf.
  - rewrite refreshall_applications_fetch. reflexivity.
  - by rewrite (entries_raise _ _ Hf).
Qed.

Lemma elem_of_filter_functions elm (elms : list Element) :
  elm ∈ filter (λ elm, is_Some (find "functions" elm)) elms →
  elm ∈ elms ∧ has_functions elm = true.
Proof.
  intros [Hf He]%list_elem_of_filter. split; [done|].
  by apply bool_decide_eq_true.
Qed.

Lemma elem_of_filter_plain elm (elms : list Element) :
  elm ∈ filter (λ elm, find "functions" elm = None) elms →
  elm ∈ elms ∧ has_functions elm = false.
Proof.
  intros [Hf He]%list_elem_of_filter. split; [done|].
  apply bool_decide_eq_false. rewrite Hf. by intros [? ?].
Qed.

(** C4: [refreshall()] empties the three dictionaries, then runs
    [refreshall_services()], then [refreshall_applications()]: the log
    gains the service query and after it the application query (the
    second is not reached when the first raises). Whatever the
    dictionaries held before, every object in them afterwards was parsed
    from an entry of the corresponding bulk response; so a name that no
    entry of the two responses carries is in none of the dictionaries. *)
Theorem full_refresh_replaces (w : W) :
  let svc_resp := device (calls w) all_service_xpath in
  let app_resp :=
    device (calls w ++ [all_service_xpath]) all_application_xpath in
  let w' := (refreshall device w).2 in
  refreshall device w
  = (modify_cache (λ _, init) ;;;
     refreshall_services device ;;;
     refreshall_applications device) w
  ∧ (calls w' = calls w ++ [all_service_xpath; all_application_xpath]
     ∨ returned (fetched svc_resp) = false
       ∧ calls w' = calls w ++ [all_service_xpath]
       ∧ cache w' = init)
  ∧ (∀ k o, service_objects (cache w') !! k = Some o →
       ∃ elm, elm ∈ entries svc_resp ∧ o = refresh elm ∧ name o = k)
  ∧ (∀ k o, application_objects (cache w') !! k = Some o →
       ∃ elm, elm ∈ entries app_resp ∧ has_functions elm = false
              ∧ o = refresh elm ∧ name o = k)
  ∧ (∀ k o, application_container_objects (cache w') !! k = Some o →
       ∃ elm, elm ∈ entries app_resp ∧ has_functions elm = true
              ∧ o = refresh elm ∧ name o = k)
  ∧ (∀ k,
       (∀ elm, elm ∈ entries svc_resp → name (refresh elm : Svc) ≠ k) →
       (∀ elm, elm ∈ entries app_resp →
          application_entry_name App Ctr elm ≠ k) →
       service_objects (cache w') !! k = None
       ∧ application_objects (cache w') !! k = None
       ∧ application_container_objects (cache w') !! k = None).
Proof.
  intros svc_resp app_resp w'.
  assert (∀ k o, service_objects (cache w') !! k = Some o →
            ∃ elm, elm ∈ entries svc_resp ∧ o = refresh elm ∧ name o = k)
    as Hsvc.
  { intros k o. subst w'. rewrite refreshall_world. fold svc_resp app_resp.
    destruct (returned (fetched svc_resp)); cbn [cache]; [|done].
    destruct (foldl_store_application (entries app_resp)
                (foldl (flip store_service) init (entries svc_resp)))
      as (_ & _ & ->).
    destruct (foldl_store_service (entries svc_resp) init) as (-> & _ & _).
    intros [Hk|Hk]%foldl_put_lookup; [done | exact Hk]. }
  assert (∀ k o, application_objects (cache w') !! k = Some o →
            ∃ elm, elm ∈ entries app_resp ∧ has_functions elm = false
                   ∧ o = refresh elm ∧ name o = k) as Happ.
  { intros k o. subst w'. rewrite refreshall_world. fold svc_resp app_resp.
    destruct (returned (fetched svc_resp)); cbn [cache]; [|done].
    destruct (foldl_store_application (entries app_resp)
                (foldl (flip store_service) init (entries svc_resp)))
      as (_ & -> & _).
    destruct (foldl_store_service (entries svc_resp) init) as (_ & -> & _).
    intros [Hk|(elm & He & Ho)]%foldl_put_lookup; [done|].
    apply elem_of_filter_plain in He as [He Hf]. by exists elm. }
  assert (∀ k o, application_container_objects (cache w') !! k = Some o →
            ∃ elm, elm ∈ entries app_resp ∧ has_functions elm = true
                   ∧ o = refresh elm ∧ name o = k) as Hctr.
  { intros k o. subst w'. rewrite refreshall_world. fold svc_resp app_resp.
    destruct (returned (fetched svc_resp)); cbn [cache]; [|done].
    destruct (foldl_store_application (entries app_resp)
                (foldl (flip store_service) init (entries svc_resp)))
      as (-> & _ & _).
    destruct (foldl_store_service (entries svc_resp) init) as (_ & _ & ->).
    intros [Hk|(elm & He & Ho)]%foldl_put_lookup; [done|].
    apply elem_of_filter_functions in He as [He Hf]. by exists elm. }
  split; [reflexivity|]. split; [|split; [exact Hsvc|]].
  { subst w'. rewrite refreshall_world. fold svc_resp.
    destruct (returned (fetched svc_resp)); cbn [cache calls].
    - left. by rewrite <- app_assoc.
    - by right. }
  split; [exact Happ|]. split; [exact Hctr|].
  intros k Hs Ha. repeat split; apply eq_None_not_Some; intros [o Ho].
  - destruct (Hsvc _ _ Ho) as (elm & He & -> & Hn). by apply (Hs elm).
  - destruct (Happ _ _ Ho) as (elm & He & Hf & -> & Hn).
    apply (Ha elm He). unfold application_entry_name. by rewrite Hf.
  - destruct (Hctr _ _ Ho) as (elm & He & Hf & -> & Hn).
    apply (Ha elm He). unfold application_entry_name. by rewrite Hf.
Qed.

(** C5: the bulk refreshes store without clearing. After
    [refreshall_applications()] a name that no entry of the response
    carries has in the application and container dictionaries the entry it
    had before, and the service dictionary is the same; after
    [refreshall_services()] a name that no entry of the response carries
    has its service entry as before, and the application and container
    dictionaries are the same. *)
Theorem bulk_refresh_is_additive k (w : W) :
  let wa := (refreshall_applications device w).2 in
  let ws := (refreshall_services device w).2 in
  ((∀ elm, elm ∈ entries (device (calls w) all_application_xpath) →
      application_entry_name App Ctr elm ≠ k) →
   application_objects (cache wa) !! k = application_objects (cache w) !! k
   ∧ application_container_objects (cache wa) !! k
     = application_container_objects (cache w) !! k)
  ∧ service_objects (cache wa) = service_objects (cache w)
  ∧ ((∀ elm, elm ∈ entries (device (calls w) all_service_xpath) →
        name (refresh elm : Svc) ≠ k) →
     service_objects (cache ws) !! k = service_objects (cache w) !! k)
  ∧ application_objects (cache ws) = application_objects (cache w)
  ∧ application_container_objects (cache ws)
    = application_container_objects (cache w).
Proof.
  cbn zeta. rewrite refreshall_applications_fetch, refreshall_services_fetch.
  unfold fetch_with. cbn [snd cache].
  destruct (foldl_store_application
              (entries (device (calls w) all_application_xpath)) (cache w))
    as (-> & -> & ->).
  destruct (foldl_store_service
              (entries (device (calls w) all_service_xpath)) (cache w))
    as (-> & -> & ->).
  split; [|split; [done|split; [|done]]].
  - intros Hother. split; apply foldl_put_frame; intros elm He.
    + apply elem_of_filter_plain in He as [He Hf].
      specialize (Hother elm He). unfold application_entry_name in Hother.
      by rewrite Hf in Hother.
    + apply elem_of_filter_functions in He as [He Hf].
      specialize (Hother elm He). unfold application_entry_name in Hother.
      by rewrite Hf in Hother.
  - intros Hother. by apply foldl_put_frame.
Qed.

(** *** The batch look-ups *)

Lemma collect_each {X} (get : string → M Svc App Ctr (option X)) ns objs
    (w : W) :
  collect get ns objs w
  = (rs <- each get ns ;; ret (objs ++ omap id rs)) w.
Proof.
  revert objs w. induction ns as [|n ns IH]; intros objs w.
  - cbn. by rewrite app_nil_r.
  - cbn [collect each]. unfold bind.
    destruct (get n w) as [[[o|]|e] w1]; [| |done].
    + rewrite IH. unfold bind.
      destruct (each get ns w1) as [[rs|e] w2]; [|done].
      cbn. by rewrite <- app_assoc.
    + rewrite IH. unfold bind.
      by destruct (each get ns w1) as [[rs|e] w2].
Qed.

Lemma collect_found_of {X} (get : string → M Svc App Ctr (option X)) ns
    (w : W) :
  collect get ns [] w = found_of get ns w.
Proof. by rewrite collect_each. Qed.

Lemma each_length {X} (get : string → M Svc App Ctr (option X)) ns rs
    (w w' : W) :
  each get ns w = (Return rs, w') → length rs = length ns.
Proof.
  revert rs w. induction ns as [|n ns IH]; intros rs w.
  - cbn. by intros [= <- _].
  - cbn [each]. unfold bind.
    destruct (get n w) as [[o|e] w1]; [|done].
    destruct (each get ns w1) as [[rs'|e] w2] eqn:Hrest; [|done].
    cbn. intros [= <- <-]. cbn. f_equal. by eapply IH.
Qed.

Lemma omap_id_length {X} (rs : list (option X)) :
  (length (omap id rs) ≤ length rs)%nat.
Proof.
  induction rs as [|[x|] rs IH]; cbn; [done | by apply le_n_S | by apply le_S].
Qed.

Lemma each_pure {X} (get : string → M Svc App Ctr (option X))
    (read : W → string → option X) ns (w : W) :
  (∀ n w0, get n w0 = (Return (read w0 n), w0)) →
  each get ns w = (Return (read w <$> ns), w).
Proof.
  intros Hget. induction ns as [|n ns IH]; [done|].
  cbn [each]. unfold bind. by rewrite Hget, IH.
Qed.

Lemma omap_id_fmap {X Y} (f : Y → option X) (l : list Y) :
  omap id (f <$> l) = omap f l.
Proof. induction l as [|y l IH]; [done|]. cbn. by rewrite IH. Qed.

Lemma found_of_returns {X} (get : string → M Svc App Ctr (option X)) ns
    (w : W) :
  (∀ rs w', each get ns w = (Return rs, w') →
     found_of get ns w = (Return (omap id rs), w')
     ∧ (length (omap id rs) ≤ length ns)%nat)
  ∧ (∀ e w', each get ns w = (Raise e, w') →
       found_of get ns w = (Raise e, w'))
  ∧ (∀ objs w', found_of get ns w = (Return objs, w') →
       (length objs ≤ length ns)%nat).
Proof.
  unfold found_of, bind. split; [|split].
  - intros rs w' Hrun. rewrite Hrun. split; [done|].
    rewrite <- (each_length _ _ _ _ _ Hrun). apply omap_id_length.
  - by intros e w' ->.
  - intros objs w'. destruct (each get ns w) as [[rs|e] w1] eqn:Hrun; [|done].
    cbn. intros [= <- _].
    rewrite <- (each_length _ _ _ _ _ Hrun). apply omap_id_length.
Qed.

Context `{!SetOrder}.

(** C6, as the code has it: [services(names)] looks up each distinct
    name once, in the order the set yields them, and, when every look-up
    returns, returns exactly the objects found: a look-up that returns
    [None] adds nothing, so the list is no longer than the number of
    distinct names. An exception raised inside a look-up (by the refresh it
    triggers) ends the batch and reaches the caller. With
    [refresh_if_none=False] nothing is raised and the world is unchanged.
    The same holds of [applications(names)]. *)
Theorem batch_lookup_best_effort names r ic (w : W) :
  let ns := set_iter names in
  let get_service := λ n, service device n r in
  let get_application := λ n, application device n r ic in
  (NoDup ns ∧ ∀ n, n ∈ ns ↔ n ∈ names)
  ∧ services device names r w = found_of get_service ns w
  ∧ applications device names r ic w = found_of get_application ns w
  ∧ (∀ rs w', each get_service ns w = (Return rs, w') →
       services device names r w = (Return (omap id rs), w')
       ∧ (length (omap id rs) ≤ length ns)%nat)
  ∧ (∀ rs w', each get_application ns w = (Return rs, w') →
       applications device names r ic w = (Return (omap id rs), w')
       ∧ (length (omap id rs) ≤ length ns)%nat)
  ∧ (∀ e w', each get_service ns w = (Raise e, w') →
       services device names r w = (Raise e, w'))
  ∧ (∀ e w', each get_application ns w = (Raise e, w') →
       applications device names r ic w = (Raise e, w'))
  ∧ services device names false w
    = (Return (omap (λ n, service_objects (cache w) !! n) ns), w)
  ∧ applications device names false ic w
    = (Return (omap (λ n, cached_application (cache w) n ic) ns), w).
Proof.
  intros ns get_service get_application.
  split; [split; [apply set_iter_NoDup | apply set_iter_elem]|].
  unfold services, applications. fold ns. rewrite !collect_found_of.
  fold get_service get_application.
  destruct (found_of_returns get_service ns w) as (Hs1 & Hs2 & _).
  destruct (found_of_returns get_application ns w) as (Ha1 & Ha2 & _).
  do 6 (split; [done|]). split.
  - unfold found_of, bind.
    rewrite (each_pure _ (λ w0 n, service_objects (cache w0) !! n))
      by (intros; apply service_no_refresh).
    cbn. by rewrite omap_id_fmap.
  - unfold found_of, bind.
    rewrite (each_pure _ (λ w0 n, cached_application (cache w0) n ic))
      by (intros; apply application_no_refresh).
    cbn. by rewrite omap_id_fmap.
Qed.

End Properties.

(** ** The properties on the concrete devices *)

Lemma single_retry_witness :
  application_objects (cache Demo.fresh) !! "missing" = None
  ∧ application_container_objects (cache Demo.fresh) !! "missing" = None
  ∧ application Demo.quiet_device "missing" true true Demo.fresh
    = (Return None, logged (single_application_xpath "missing") Demo.fresh).
Proof.
  split; [reflexivity|]. split; [reflexivity|].
  destruct (single_retry Demo.quiet_device "missing" true Demo.fresh)
    as (_ & _ & Hreturn & _); [reflexivity | reflexivity |].
  destruct (Hreturn (logged (single_application_xpath "missing") Demo.fresh))
    as [_ Hnone]; [reflexivity|].
  apply Hnone; reflexivity.
Defined.


Lemma container_fallback_witness :
  application_objects (cache Demo.stale) !! "web-browsing" = None
  ∧ application_container_objects (cache Demo.stale) !! "web-browsing"
    = Some (Demo.parse Demo.KContainer Demo.web_browsing)
  ∧ application Demo.quiet_device "web-browsing" true true Demo.stale
    = (Return (Some (inr (Demo.parse Demo.KContainer Demo.web_browsing))),
       Demo.stale)
  ∧ application Demo.quiet_device "web-browsing" false false Demo.stale
    = (Return None, Demo.stale).
Proof.
  split; [reflexivity|]. split; [reflexivity|].
  destruct (container_fallback Demo.quiet_device "web-browsing"
              (Demo.parse Demo.KContainer Demo.web_browsing) Demo.stale)
    as (Hwith & Hwithout & _); [reflexivity | reflexivity |].
  split; [apply Hwith | exact Hwithout].
Defined.

Lemma service_pull_through_witness :
  fetched (Demo.quiet_device (calls Demo.fresh)
             (single_service_xpath "service-http"))
  = Return [Demo.tcp80]
  ∧ ∃ o w1,
      service Demo.quiet_device "service-http" true Demo.fresh
      = (Return (Some o), w1)
      ∧ service_objects (cache w1) !! "service-http" = Some o
      ∧ service Demo.quiet_device "service-http" true w1
        = (Return (Some o), w1)
      ∧ (calls w1 = calls Demo.fresh
         ∨ calls w1
           = calls Demo.fresh ++ [single_service_xpath "service-http"]).
Proof.
  split; [reflexivity|].
  apply (service_pull_through Demo.quiet_device "service-http" [Demo.tcp80]
           Demo.fresh); [reflexivity|].
  exists Demo.tcp80. split; [left | reflexivity].
Defined.

Lemma container_classification_witness :
  is_Some (find "functions" Demo.web_browsing)
  ∧ find "functions" Demo.ssh = None
  ∧ application_container_objects
      (store_application Demo.web_browsing (cache Demo.fresh))
    !! "web-browsing"
    = Some (Demo.parse Demo.KContainer Demo.web_browsing)
  ∧ application_objects
      (store_application Demo.web_browsing (cache Demo.fresh))
    = application_objects (cache Demo.fresh)
  ∧ application_objects (store_application Demo.ssh (cache Demo.fresh))
    !! "ssh"
    = Some (Demo.parse Demo.KApplication Demo.ssh)
  ∧ application_container_objects
      (store_application Demo.ssh (cache Demo.fresh))
    = application_container_objects (cache Demo.fresh).
Proof.
  assert (is_Some (find "functions" Demo.web_browsing)) as Hwb
    by (by eexists).
  assert (find "functions" Demo.ssh = None) as Hssh by reflexivity.
  split; [exact Hwb|]. split; [exact Hssh|].
  destruct (container_classification
              (Elem "result" [] EmptyString [Demo.ssh; Demo.web_browsing]) Demo.fresh)
    as (Hstep & _).
  destruct (Hstep Demo.web_browsing (cache Demo.fresh)) as (Hc & _ & _).
  destruct (Hstep Demo.ssh (cache Demo.fresh)) as (_ & Ha & _).
  destruct (Hc Hwb) as [-> ->]. destruct (Ha Hssh) as [-> ->].
  split; [apply lookup_insert_eq|]. split; [reflexivity|].
  split; [apply lookup_insert_eq | reflexivity].
Defined.

Lemma full_refresh_replaces_witness :
  is_Some (service_objects (cache Demo.stale) !! "old-svc")
  ∧ service_objects (cache (refreshall Demo.quiet_device Demo.stale).2)
    !! "old-svc" = None
  ∧ application_objects (cache (refreshall Demo.quiet_device Demo.stale).2)
    !! "old-svc" = None
  ∧ application_container_objects
      (cache (refreshall Demo.quiet_device Demo.stale).2)
    !! "old-svc" = None.
Proof.
  split; [by eexists|].
  destruct (full_refresh_replaces Demo.quiet_device Demo.stale)
    as (_ & _ & _ & _ & _ & Habsent).
  apply (Habsent "old-svc").
  - intros elm Hin. change (elm ∈ [Demo.tcp80]) in Hin.
    apply list_elem_of_singleton in Hin as ->. discriminate.
  - intros elm Hin. change (elm ∈ [Demo.ssh; Demo.web_browsing]) in Hin.
    apply elem_of_cons in Hin as [->|Hin]; [discriminate|].
    apply list_elem_of_singleton in Hin as ->. discriminate.
Defined.

Lemma bulk_refresh_is_additive_witness :
  is_Some (application_objects (cache Demo.stale) !! "old-app")
  ∧ application_objects
      (cache (refreshall_applications Demo.quiet_device Demo.stale).2)
    !! "old-app"
    = application_objects (cache Demo.stale) !! "old-app"
  ∧ is_Some (service_objects (cache Demo.stale) !! "old-svc")
  ∧ service_objects
      (cache (refreshall_services Demo.quiet_device Demo.stale).2)
    !! "old-svc"
    = service_objects (cache Demo.stale) !! "old-svc".
Proof.
  destruct (bulk_refresh_is_additive Demo.quiet_device "old-app" Demo.stale)
    as (Happ & _).
  destruct (bulk_refresh_is_additive Demo.quiet_device "old-svc" Demo.stale)
    as (_ & _ & Hsvc & _).
  split; [by eexists|]. split; [|split; [by eexists|]].
  - apply Happ. intros elm Hin.
    change (elm ∈ [Demo.ssh; Demo.web_browsing]) in Hin.
    apply elem_of_cons in Hin as [->|Hin]; [discriminate|].
    apply list_elem_of_singleton in Hin as ->. discriminate.
  - apply Hsvc. intros elm Hin. change (elm ∈ [Demo.tcp80]) in Hin.
    apply list_elem_of_singleton in Hin as ->. discriminate.
Defined.

Lemma batch_lookup_best_effort_witness :
  each (λ n, service Demo.quiet_device n true)
    (set_iter ["service-http"; "service-http"; "B"]) Demo.fresh
  = (Return [Some (Demo.parse Demo.KService Demo.tcp80); None],
     logged (single_service_xpath "B")
       (logged (single_service_xpath "service-http")
          (with_cache
             (store_service Demo.tcp80 (cache Demo.fresh)) Demo.fresh)))
  ∧ services Demo.quiet_device ["service-http"; "service-http"; "B"] true
      Demo.fresh
    = (Return [Demo.parse Demo.KService Demo.tcp80],
       logged (single_service_xpath "B")
         (logged (single_service_xpath "service-http")
            (with_cache
               (store_service Demo.tcp80 (cache Demo.fresh)) Demo.fresh))).
Proof.
  assert (each (λ n, service Demo.quiet_device n true)
            (set_iter ["service-http"; "service-http"; "B"]) Demo.fresh
          = (Return [Some (Demo.parse Demo.KService Demo.tcp80); None],
             logged (single_service_xpath "B")
               (logged (single_service_xpath "service-http")
                  (with_cache
                     (store_service Demo.tcp80 (cache Demo.fresh))
                     Demo.fresh)))) as Hrun by reflexivity.
  split; [exact Hrun|].
  destruct (batch_lookup_best_effort Demo.quiet_device
              ["service-http"; "service-http"; "B"] true true Demo.fresh)
    as (_ & _ & _ & Hreturn & _).
  destruct (Hreturn _ _ Hrun) as [Heq _]. exact Heq.
Defined.


(** C6 as the specification has it fails: a name without an object can
    make the batch raise. Behind a transport client that reports the
    unknown name [B] with an exception, [services] raises that exception
    although [service-http] exists and [B] has no object before or after. *)
Lemma batch_lookup_missing_name_raises :
  service_objects (cache Demo.fresh) !! "B" = None
  ∧ ∃ w',
      services Demo.strict_device ["service-http"; "service-http"; "B"] true
        Demo.fresh
      = (Raise (PanObjectMissing "No such node"), w')
      ∧ service_objects (cache w') !! "B" = None
      ∧ ¬ ∃ objs,
          (services Demo.strict_device ["service-http"; "service-http"; "B"]
             true Demo.fresh).1
          = Return objs.
Proof.
  split; [reflexivity|]. eexists. split; [reflexivity|].
  split; [reflexivity|]. intros [objs Hobjs]. discriminate Hobjs.
Qed.

(** *** Further runs on the concrete devices *)

(** An empty result is not an error: the refresh returns and stores
    nothing. *)
Example refresh_application_empty_result :
  refresh_application Demo.quiet_device "missing" Demo.fresh
  = (Return tt, logged (single_application_xpath "missing") Demo.fresh).
Proof. reflexivity. Qed.

(** A response root without a [result] child cannot be iterated. *)
Example refresh_service_without_result :
  (refresh_service (λ _ _, Return (Elem "response" [] EmptyString []))
     "service-http" Demo.fresh).1
  = Raise (TypeError "'NoneType' object is not iterable").
Proof. reflexivity. Qed.

(** A full refresh of a cache with stale entries leaves what the device
    has and nothing else. *)
Example refreshall_on_stale_cache :
  let p := cache (refreshall Demo.quiet_device Demo.stale).2 in
  (refreshall Demo.quiet_device Demo.stale).1 = Return tt
  ∧ calls (refreshall Demo.quiet_device Demo.stale).2
    = [all_service_xpath; all_application_xpath]
  ∧ name <$> service_objects p !! "service-http" = Some "service-http"
  ∧ service_objects p !! "old-svc" = None
  ∧ name <$> application_objects p !! "ssh" = Some "ssh"
  ∧ application_objects p !! "old-app" = None
  ∧ name <$> application_container_objects p !! "web-browsing"
    = Some "web-browsing".
Proof. repeat split. Qed.

(** The bulk refresh of the applications alone keeps the stale entry. *)
Example refreshall_applications_keeps_stale :
  is_Some (application_objects
             (cache (refreshall_applications Demo.quiet_device Demo.stale).2)
           !! "old-app").
Proof. by eexists. Qed.

(** A format needs its conversion. *)
Example percent_without_conversion :
  XPath.percent "/entry" "ssh"
  = Raise (TypeError "not all arguments converted during string formatting").
Proof. reflexivity. Qed.

(** ** Further properties of the cache *)

Section MoreProperties.

Context {Svc App Ctr : Type}.
Context `{!ObjectKind Svc, !ObjectKind App, !ObjectKind Ctr}.
Variable device : Device.

Abbreviation Cache := (Predefined Svc App Ctr).
Abbreviation W := (World Svc App Ctr).

Local Open Scope py_scope.

(** *** What a response leaves under a key *)

Lemma foldl_put_last {O} `{!ObjectKind O} elms (m : gmap string O) k :
  foldl put m elms !! k = after_entries k elms m.
Proof.
  unfold after_entries, last_named.
  induction elms as [|elm elms IH] using rev_ind; [done|].
  rewrite foldl_app, filter_app. cbn [foldl]. unfold put at 1.
  rewrite filter_cons, filter_nil.
  destruct (decide (name (refresh elm) = k)) as [Heq|Hne].
  - by rewrite last_snoc, Heq, lookup_insert_eq.
  - by rewrite app_nil_r, lookup_insert_ne.
Qed.

Lemma fetch_service_cache xpath (w : W) :
  let p' := cache (fetch_with device store_service xpath w).2 in
  service_objects p'
  = foldl put (service_objects (cache w)) (entries (device (calls w) xpath))
  ∧ application_objects p' = application_objects (cache w)
  ∧ application_container_objects p'
    = application_container_objects (cache w).
Proof. apply foldl_store_service. Qed.

Lemma fetch_application_cache xpath (w : W) :
  let p' := cache (fetch_with device store_application xpath w).2 in
  application_container_objects p'
  = foldl put (application_container_objects (cache w))
      (filter (λ elm, is_Some (find "functions" elm))
         (entries (device (calls w) xpath)))
  ∧ application_objects p'
    = foldl put (application_objects (cache w))
        (filter (λ elm, find "functions" elm = None)
           (entries (device (calls w) xpath)))
  ∧ service_objects p' = service_objects (cache w).
Proof. apply foldl_store_application. Qed.

(** X1: the last entry of a name wins. After a refresh, a key holds the
    object parsed from the last entry of the response that carries it, and
    otherwise what it held before; for the two application dictionaries the
    entries are those with, respectively without, a [functions] child. *)
Theorem last_entry_wins nm k (w : W) :
  let svc_one := entries (device (calls w) (single_service_xpath nm)) in
  let svc_all := entries (device (calls w) all_service_xpath) in
  let app_one := entries (device (calls w) (single_application_xpath nm)) in
  let app_all := entries (device (calls w) all_application_xpath) in
  let plain := filter (λ elm, find "functions" elm = None) in
  let grouped := filter (λ elm, is_Some (find "functions" elm)) in
  service_objects (cache (refresh_service device nm w).2) !! k
  = after_entries k svc_one (service_objects (cache w))
  ∧ service_objects (cache (refreshall_services device w).2) !! k
    = after_entries k svc_all (service_objects (cache w))
  ∧ application_objects (cache (refresh_application device nm w).2) !! k
    = after_entries k (plain app_one) (application_objects (cache w))
  ∧ application_container_objects
      (cache (refresh_application device nm w).2) !! k
    = after_entries k (grouped app_one)
        (application_container_objects (cache w))
  ∧ application_objects (cache (refreshall_applications device w).2) !! k
    = after_entries k (plain app_all) (application_objects (cache w))
  ∧ application_container_objects
      (cache (refreshall_applications device w).2) !! k
    = after_entries k (grouped app_all)
        (application_container_objects (cache w)).
Proof.
  cbn zeta.
  rewrite refresh_service_fetch, refreshall_services_fetch,
    refresh_application_fetch, refreshall_applications_fetch.
  destruct (fetch_service_cache (single_service_xpath nm) w) as (-> & _).
  destruct (fetch_service_cache all_service_xpath w) as (-> & _).
  destruct (fetch_application_cache (single_application_xpath nm) w)
    as (-> & -> & _).
  destruct (fetch_application_cache all_application_xpath w)
    as (-> & -> & _).
  rewrite !foldl_put_last. done.
Qed.

(** *** Failures of the transport *)

Lemma fetched_without_result resp :
  without_result resp →
  fetched resp = Raise (TypeError "'NoneType' object is not iterable").
Proof. intros (root & -> & Hnone). unfold fetched. by rewrite Hnone. Qed.

Lemma fetch_with_raise store xpath e (w : W) :
  fetched (device (calls w) xpath) = Raise e →
  fetch_with device store xpath w = (Raise e, logged xpath w).
Proof.
  intros Hf. unfold fetch_with, entries. rewrite Hf. reflexivity.
Qed.

(** X2: a response root without a [result] child makes every refresh
    raise [TypeError] (the loop iterates [None]): the call is logged and
    the dictionaries are as before. A look-up that misses and refreshes
    raises the same. *)
Theorem refresh_without_result nm ic (w : W) :
  let none_type := TypeError "'NoneType' object is not iterable" in
  (without_result (device (calls w) (single_service_xpath nm)) →
     refresh_service device nm w
     = (Raise none_type, logged (single_service_xpath nm) w)
     ∧ (service_objects (cache w) !! nm = None →
        service device nm true w
        = (Raise none_type, logged (single_service_xpath nm) w)))
  ∧ (without_result (device (calls w) (single_application_xpath nm)) →
       refresh_application device nm w
       = (Raise none_type, logged (single_application_xpath nm) w)
       ∧ (cached_application (cache w) nm ic = None →
          application device nm true ic w
          = (Raise none_type, logged (single_application_xpath nm) w)))
  ∧ (without_result (device (calls w) all_service_xpath) →
       refreshall_services device w
       = (Raise none_type, logged all_service_xpath w))
  ∧ (without_result (device (calls w) all_application_xpath) →
       refreshall_applications device w
       = (Raise none_type, logged all_application_xpath w)).
Proof.
  cbn zeta. split; [|split; [|split]].
  - intros Hbare%fetched_without_result.
    assert (refresh_service device nm w
            = (Raise (TypeError "'NoneType' object is not iterable"),
               logged (single_service_xpath nm) w)) as Hraise
      by (rewrite refresh_service_fetch; by apply fetch_with_raise).
    split; [exact Hraise|]. intros Hmiss.
    rewrite (service_miss _ _ _ Hmiss). unfold bind. by rewrite Hraise.
  - intros Hbare%fetched_without_result.
    assert (refresh_application device nm w
            = (Raise (TypeError "'NoneType' object is not iterable"),
               logged (single_application_xpath nm) w)) as Hraise
      by (rewrite refresh_application_fetch; by apply fetch_with_raise).
    split; [exact Hraise|]. intros Hmiss.
    rewrite (application_miss _ _ _ _ Hmiss). unfold bind. by rewrite Hraise.
  - intros Hbare%fetched_without_result.
    rewrite refreshall_services_fetch. by apply fetch_with_raise.
  - intros Hbare%fetched_without_result.
    rewrite refreshall_applications_fetch. by apply fetch_with_raise.
Qed.

Lemma refreshall_outcome (w : W) :
  (refreshall device w).1
  = match fetched (device (calls w) all_service_xpath) with
    | Raise e => Raise e
    | Return _ =>
        match fetched (device (calls w ++ [all_service_xpath])
                         all_application_xpath) with
        | Raise e => Raise e
        | Return _ => Return tt
        end
    end.
Proof.
  rewrite refreshall_clear. unfold bind.
  rewrite refreshall_services_fetch. unfold fetch_with at 1.
  cbn [with_cache cache calls].
  destruct (fetched (device (calls w) all_service_xpath)) as [elms|e]; [|done].
  rewrite refreshall_applications_fetch. reflexivity.
Qed.

(** X3: [refreshall()] is not all-or-nothing. When the service query
    fails, the exception reaches the caller, the application query is not
    made, and the three dictionaries are left empty. When the service
    query succeeds and the application query fails, the exception reaches
    the caller with the service dictionary rebuilt from the response and
    the two application dictionaries empty. What was cached before is
    lost in both cases. *)
Theorem refreshall_failure e (w : W) :
  let w' := (refreshall device w).2 in
  (fetched (device (calls w) all_service_xpath) = Raise e →
     refreshall device w
     = (Raise e, {| cache := init; calls := calls w ++ [all_service_xpath] |}))
  ∧ (∀ elms,
       fetched (device (calls w) all_service_xpath) = Return elms →
       fetched (device (calls w ++ [all_service_xpath]) all_application_xpath)
       = Raise e →
       (refreshall device w).1 = Raise e
       ∧ calls w' = calls w ++ [all_service_xpath; all_application_xpath]
       ∧ service_objects (cache w') = foldl put ∅ elms
       ∧ application_objects (cache w') = ∅
       ∧ application_container_objects (cache w') = ∅).
Proof.
  cbn zeta. split.
  - intros Hs. apply injective_projections.
    + by rewrite refreshall_outcome, Hs.
    + rewrite refreshall_world. by rewrite Hs.
  - intros elms Hs Ha. split; [by rewrite refreshall_outcome, Hs, Ha|].
    rewrite refreshall_world, Hs. cbn [returned cache calls].
    rewrite (entries_raise _ _ Ha). cbn [foldl].
    destruct (foldl_store_service
                (entries (device (calls w) all_service_xpath))
                (@init Svc App Ctr)) as (-> & -> & ->).
    unfold entries. rewrite Hs. cbn. by rewrite <- app_assoc.
Qed.

(** *** One look-up, in closed form *)

Lemma service_run nm r (w : W) :
  service device nm r w
  = if is_none (service_objects (cache w) !! nm) && r then
      let w' := (fetch_with device store_service
                   (single_service_xpath nm) w).2 in
      (match fetched (device (calls w) (single_service_xpath nm)) with
       | Return _ => Return (service_objects (cache w') !! nm)
       | Raise e => Raise e
       end, w')
    else (Return (service_objects (cache w) !! nm), w).
Proof.
  rewrite service_unfold, service_body_cached.
  destruct (is_none _ && r); [|reflexivity].
  unfold bind. rewrite refresh_service_fetch. unfold fetch_with.
  destruct (fetched _); [|reflexivity].
  by rewrite service_no_refresh.
Qed.

Lemma application_run nm r ic (w : W) :
  application device nm r ic w
  = if is_none (cached_application (cache w) nm ic) && r then
      let w' := (fetch_with device store_application
                   (single_application_xpath nm) w).2 in
      (match fetched (device (calls w) (single_application_xpath nm)) with
       | Return _ => Return (cached_application (cache w') nm ic)
       | Raise e => Raise e
       end, w')
    else (Return (cached_application (cache w) nm ic), w).
Proof.
  rewrite application_unfold, application_body_cached.
  destruct (is_none _ && r); [|reflexivity].
  unfold bind. rewrite refresh_application_fetch. unfold fetch_with.
  destruct (fetched _); [|reflexivity].
  by rewrite application_no_refresh.
Qed.

Lemma service_world nm r (w : W) :
  (service device nm r w).2 = w
  ∨ (service device nm r w).2
    = (fetch_with device store_service (single_service_xpath nm) w).2.
Proof.
  rewrite service_run. destruct (is_none _ && r); [by right | by left].
Qed.

Lemma application_world nm r ic (w : W) :
  (application device nm r ic w).2 = w
  ∨ (application device nm r ic w).2
    = (fetch_with device store_application
         (single_application_xpath nm) w).2.
Proof.
  rewrite application_run. destruct (is_none _ && r); [by right | by left].
Qed.

(** *** What the batch look-ups inherit from the single ones *)

Lemma each_preserves {X} (get : string → M Svc App Ctr (option X))
    (R : W → W → Prop) `{!Reflexive R, !Transitive R} ns (w : W) :
  (∀ n w0, R w0 (get n w0).2) → R w (each get ns w).2.
Proof.
  intros Hget. revert w. induction ns as [|n ns IH]; intros w; [done|].
  cbn [each]. unfold bind. specialize (Hget n w).
  destruct (get n w) as [[o|e] w1]; [|done].
  specialize (IH w1). destruct (each get ns w1) as [[rs|e] w2]; cbn in *;
    by etrans.
Qed.

Lemma collect_preserves {X} (get : string → M Svc App Ctr (option X))
    (R : W → W → Prop) `{!Reflexive R, !Transitive R} ns (w : W) :
  (∀ n w0, R w0 (get n w0).2) → R w (collect get ns [] w).2.
Proof.
  intros Hget. rewrite collect_found_of. unfold found_of, bind.
  pose proof (each_preserves get R ns w Hget) as Hrun.
  by destruct (each get ns w) as [[rs|e] w1].
Qed.

#[local] Instance keeps_keys_refl : Reflexive (@keeps_keys Svc App Ctr).
Proof. by intros p. Qed.

#[local] Instance keeps_keys_trans : Transitive (@keeps_keys Svc App Ctr).
Proof.
  intros p1 p2 p3 (Hs1 & Ha1 & Hc1) (Hs2 & Ha2 & Hc2).
  repeat split; intros k Hk; auto.
Qed.

#[local] Instance extends_refl : Reflexive (@extends Svc App Ctr).
Proof. intros w. by split. Qed.

#[local] Instance extends_trans : Transitive (@extends Svc App Ctr).
Proof.
  intros w1 w2 w3 [Hk1 Hc1] [Hk2 Hc2]. split; by etrans.
Qed.

Lemma fetch_service_extends xpath (w : W) :
  extends w (fetch_with device store_service xpath w).2.
Proof.
  split; [|by apply prefix_app_r].
  destruct (fetch_service_cache xpath w) as (Hs & Ha & Hc).
  repeat split; intros k Hk.
  - rewrite Hs. by apply foldl_put_keeps.
  - by rewrite Ha.
  - by rewrite Hc.
Qed.

Lemma fetch_application_extends xpath (w : W) :
  extends w (fetch_with device store_application xpath w).2.
Proof.
  split; [|by apply prefix_app_r].
  destruct (fetch_application_cache xpath w) as (Hc & Ha & Hs).
  repeat split; intros k Hk.
  - by rewrite Hs.
  - rewrite Ha. by apply foldl_put_keeps.
  - rewrite Hc. by apply foldl_put_keeps.
Qed.

Lemma service_extends nm r (w : W) : extends w (service device nm r w).2.
Proof.
  destruct (service_world nm r w) as [->| ->];
    [done | apply fetch_service_extends].
Qed.

Lemma application_extends nm r ic (w : W) :
  extends w (application device nm r ic w).2.
Proof.
  destruct (application_world nm r ic w) as [->| ->];
    [done | apply fetch_application_extends].
Qed.

Context `{!SetOrder}.

(** X4: apart from [refreshall()], no method forgets. After a single or
    bulk refresh, a look-up or a batch look-up, whether it returned or
    raised, every key that was in a dictionary is still in it, and the log
    of transport calls begins with the log as it was. *)
Theorem nothing_forgotten nm names r ic (w : W) :
  extends w (refresh_service device nm w).2
  ∧ extends w (refresh_application device nm w).2
  ∧ extends w (refreshall_services device w).2
  ∧ extends w (refreshall_applications device w).2
  ∧ extends w (service device nm r w).2
  ∧ extends w (application device nm r ic w).2
  ∧ extends w (services device names r w).2
  ∧ extends w (applications device names r ic w).2.
Proof.
  rewrite refresh_service_fetch, refresh_application_fetch,
    refreshall_services_fetch, refreshall_applications_fetch.
  split; [apply fetch_service_extends|].
  split; [apply fetch_application_extends|].
  split; [apply fetch_service_extends|].
  split; [apply fetch_application_extends|].
  split; [apply service_extends|].
  split; [apply application_extends|].
  split.
  - apply (collect_preserves _ extends). intros. apply service_extends.
  - apply (collect_preserves _ extends). intros. apply application_extends.
Qed.

Lemma each_invariant {X} (get : string → M Svc App Ctr (option X))
    (P : W → Prop) ns (w : W) :
  (∀ n w0, P w0 → P (get n w0).2) → P w → P (each get ns w).2.
Proof.
  intros Hget. revert w. induction ns as [|n ns IH]; intros w Hw; [done|].
  cbn [each]. unfold bind. specialize (Hget n w Hw).
  destruct (get n w) as [[o|e] w1]; [|done].
  specialize (IH w1 Hget). by destruct (each get ns w1) as [[rs|e] w2].
Qed.

Lemma collect_invariant {X} (get : string → M Svc App Ctr (option X))
    (P : W → Prop) ns (w : W) :
  (∀ n w0, P w0 → P (get n w0).2) → P w → P (collect get ns [] w).2.
Proof.
  intros Hget Hw. rewrite collect_found_of. unfold found_of, bind.
  pose proof (each_invariant get P ns w Hget Hw) as Hrun.
  by destruct (each get ns w) as [[rs|e] w1].
Qed.

(** *** The queries a look-up makes *)

Lemma service_calls nm r (w : W) :
  calls (service device nm r w).2
  = calls w ++ (if is_none (service_objects (cache w) !! nm) && r
                then [single_service_xpath nm] else []).
Proof.
  rewrite service_run. destruct (is_none _ && r); [done|].
  by rewrite app_nil_r.
Qed.

Lemma application_calls nm r ic (w : W) :
  calls (application device nm r ic w).2
  = calls w ++ (if is_none (cached_application (cache w) nm ic) && r
                then [single_application_xpath nm] else []).
Proof.
  rewrite application_run. destruct (is_none _ && r); [done|].
  by rewrite app_nil_r.
Qed.

Lemma each_queries {X} (get : string → M Svc App Ctr (option X))
    (path : string → string) ns (w : W) :
  (∀ n w0, calls (get n w0).2 = calls w0
           ∨ calls (get n w0).2 = calls w0 ++ [path n]) →
  ∃ ms, ms `sublist_of` ns
        ∧ calls (each get ns w).2 = calls w ++ (path <$> ms).
Proof.
  intros Hget. revert w. induction ns as [|n ns IH]; intros w.
  - exists []. split; [done|]. cbn. by rewrite app_nil_r.
  - cbn [each]. unfold bind. specialize (Hget n w).
    destruct (get n w) as [[o|e] w1]; cbn [snd] in Hget.
    + destruct (IH w1) as (ms & Hms & Hcalls).
      destruct (each get ns w1) as [[rs|e] w2]; cbn [snd ret] in *;
        (destruct Hget as [Hsame|Hmore];
         [ exists ms; split; [by apply sublist_cons|]; by rewrite Hcalls, Hsame
         | exists (n :: ms); split; [by apply sublist_skip|];
           rewrite Hcalls, Hmore; cbn; by rewrite <- app_assoc ]).
    + cbn [snd]. destruct Hget as [Hsame|Hmore].
      * exists []. split; [apply sublist_nil_l|]. cbn.
        by rewrite Hsame, app_nil_r.
      * exists [n]. split; [apply sublist_skip, sublist_nil_l|].
        by rewrite Hmore.
Qed.

Lemma collect_queries {X} (get : string → M Svc App Ctr (option X))
    (path : string → string) ns (w : W) :
  (∀ n w0, calls (get n w0).2 = calls w0
           ∨ calls (get n w0).2 = calls w0 ++ [path n]) →
  ∃ ms, ms `sublist_of` ns
        ∧ calls (collect get ns [] w).2 = calls w ++ (path <$> ms).
Proof.
  intros Hget. rewrite collect_found_of. unfold found_of, bind.
  destruct (each_queries get path ns w Hget) as (ms & Hms & Hcalls).
  exists ms. split; [done|].
  by destruct (each get ns w) as [[rs|e] w1].
Qed.

(** X5: what a look-up costs. [service] and [application] query the
    device exactly when the name is not found in the cache and
    [refresh_if_none] is set, and then once. A batch look-up queries only
    for names it was given, each at most once and in the order of the
    iteration, so it makes no more queries than there are distinct names. *)
Theorem transport_cost nm names r ic (w : W) :
  calls (service device nm r w).2
  = calls w ++ (if is_none (service_objects (cache w) !! nm) && r
                then [single_service_xpath nm] else [])
  ∧ calls (application device nm r ic w).2
    = calls w ++ (if is_none (cached_application (cache w) nm ic) && r
                  then [single_application_xpath nm] else [])
  ∧ (∃ ms, ms `sublist_of` set_iter names
           ∧ calls (services device names r w).2
             = calls w ++ (single_service_xpath <$> ms))
  ∧ (∃ ms, ms `sublist_of` set_iter names
           ∧ calls (applications device names r ic w).2
             = calls w ++ (single_application_xpath <$> ms))
  ∧ (length (calls (services device names r w).2)
     ≤ length (calls w) + length (set_iter names))%nat
  ∧ (length (calls (applications device names r ic w).2)
     ≤ length (calls w) + length (set_iter names))%nat.
Proof.
  assert (∃ ms, ms `sublist_of` set_iter names
            ∧ calls (services device names r w).2
              = calls w ++ (single_service_xpath <$> ms)) as Hs.
  { apply collect_queries. intros n w0. rewrite service_calls.
    destruct (is_none _ && r); [by right | left; by rewrite app_nil_r]. }
  assert (∃ ms, ms `sublist_of` set_iter names
            ∧ calls (applications device names r ic w).2
              = calls w ++ (single_application_xpath <$> ms)) as Ha.
  { apply collect_queries. intros n w0. rewrite application_calls.
    destruct (is_none _ && r); [by right | left; by rewrite app_nil_r]. }
  split; [apply service_calls|]. split; [apply application_calls|].
  split; [exact Hs|]. split; [exact Ha|]. split.
  - destruct Hs as (ms & Hms%sublist_length & ->).
    rewrite length_app, length_fmap. by apply Nat.add_le_mono_l.
  - destruct Ha as (ms & Hms%sublist_length & ->).
    rewrite length_app, length_fmap. by apply Nat.add_le_mono_l.
Qed.

(** *** Keys and names *)

Lemma foldl_put_keyed {O} `{!ObjectKind O} elms (m : gmap string O) :
  map_Forall (λ k (o : O), name o = k) m →
  map_Forall (λ k (o : O), name o = k) (foldl put m elms).
Proof.
  revert m. induction elms as [|elm elms IH]; intros m Hm; [done|].
  cbn [foldl]. apply IH. unfold put. by apply map_Forall_insert_2.
Qed.

Lemma fetch_service_keyed xpath (w : W) :
  well_keyed (cache w) →
  well_keyed (cache (fetch_with device store_service xpath w).2).
Proof.
  intros (Hs & Ha & Hc). unfold well_keyed.
  destruct (fetch_service_cache xpath w) as (-> & -> & ->).
  split; [by apply foldl_put_keyed | done].
Qed.

Lemma fetch_application_keyed xpath (w : W) :
  well_keyed (cache w) →
  well_keyed (cache (fetch_with device store_application xpath w).2).
Proof.
  intros (Hs & Ha & Hc). unfold well_keyed.
  destruct (fetch_application_cache xpath w) as (-> & -> & ->).
  split; [done|]. split; by apply foldl_put_keyed.
Qed.

Lemma init_keyed : well_keyed (@init Svc App Ctr).
Proof. repeat split; apply map_Forall_empty. Qed.

Lemma service_keyed nm r (w : W) :
  well_keyed (cache w) → well_keyed (cache (service device nm r w).2).
Proof.
  destruct (service_world nm r w) as [->| ->];
    [done | apply fetch_service_keyed].
Qed.

Lemma application_keyed nm r ic (w : W) :
  well_keyed (cache w) →
  well_keyed (cache (application device nm r ic w).2).
Proof.
  destruct (application_world nm r ic w) as [->| ->];
    [done | apply fetch_application_keyed].
Qed.

(** X6: every key is the name of its object. This holds of the empty
    cache of [__init__], every refresh, look-up and batch look-up keeps
    it, whether it returns or raises, and [refreshall()] establishes it
    from any cache. *)
Theorem keys_are_names nm names r ic (w : W) :
  well_keyed (@init Svc App Ctr)
  ∧ well_keyed (cache (refreshall device w).2)
  ∧ (well_keyed (cache w) →
     well_keyed (cache (refresh_service device nm w).2)
     ∧ well_keyed (cache (refresh_application device nm w).2)
     ∧ well_keyed (cache (refreshall_services device w).2)
     ∧ well_keyed (cache (refreshall_applications device w).2)
     ∧ well_keyed (cache (service device nm r w).2)
     ∧ well_keyed (cache (application device nm r ic w).2)
     ∧ well_keyed (cache (services device names r w).2)
     ∧ well_keyed (cache (applications device names r ic w).2)).
Proof.
  split; [apply init_keyed|]. split.
  - rewrite refreshall_world.
    destruct (returned _); cbn [cache]; [|apply init_keyed].
    apply (fetch_application_keyed all_application_xpath
             {| cache := foldl (flip store_service) init
                           (entries (device (calls w) all_service_xpath));
                calls := calls w ++ [all_service_xpath] |}).
    apply (fetch_service_keyed all_service_xpath (with_cache init w)).
    apply init_keyed.
  - intros Hw.
    rewrite refresh_service_fetch, refresh_application_fetch,
      refreshall_services_fetch, refreshall_applications_fetch.
    split; [by apply fetch_service_keyed|].
    split; [by apply fetch_application_keyed|].
    split; [by apply fetch_service_keyed|].
    split; [by apply fetch_application_keyed|].
    split; [by apply service_keyed|].
    split; [by apply application_keyed|].
    split.
    + apply (collect_invariant _ (λ w0, well_keyed (cache w0))); [|done].
      intros n w0. apply service_keyed.
    + apply (collect_invariant _ (λ w0, well_keyed (cache w0))); [|done].
      intros n w0. apply application_keyed.
Qed.

Lemma service_found_name nm r o (w w1 : W) :
  well_keyed (cache w) →
  service device nm r w = (Return (Some o), w1) → name o = nm.
Proof.
  intros Hw Hrun. pose proof (service_keyed nm r w Hw) as (Hs & _).
  rewrite service_run in Hrun, Hs. destruct (is_none _ && r).
  - cbn zeta in Hrun. destruct (fetched _); [|done].
    injection Hrun as Ho _. by apply (map_Forall_lookup_1 _ _ _ _ Hs).
  - injection Hrun as Ho _. by apply (map_Forall_lookup_1 _ _ _ _ Hs).
Qed.

Lemma cached_application_name (p : Cache) nm ic o :
  well_keyed p → cached_application p nm ic = Some o → result_name o = nm.
Proof.
  intros (_ & Ha & Hc). unfold cached_application.
  destruct (application_objects p !! nm) as [a|] eqn:Hla.
  - intros [= <-]. by apply (map_Forall_lookup_1 _ _ _ _ Ha).
  - destruct ic; [|done].
    destruct (application_container_objects p !! nm) as [c|] eqn:Hlc; [|done].
    intros [= <-]. by apply (map_Forall_lookup_1 _ _ _ _ Hc).
Qed.

Lemma application_found_name nm r ic o (w w1 : W) :
  well_keyed (cache w) →
  application device nm r ic w = (Return (Some o), w1) → result_name o = nm.
Proof.
  intros Hw Hrun. pose proof (application_keyed nm r ic w Hw) as Hw1.
  rewrite application_run in Hrun, Hw1. destruct (is_none _ && r).
  - cbn zeta in Hrun. destruct (fetched _); [|done].
    injection Hrun as Ho _. by eapply cached_application_name.
  - injection Hrun as Ho _. by eapply cached_application_name.
Qed.

Lemma each_names {X} (get : string → M Svc App Ctr (option X))
    (nameof : X → string) (P : W → Prop) ns rs (w w' : W) :
  (∀ n w0, P w0 → P (get n w0).2) →
  (∀ n o w0 w1, P w0 → get n w0 = (Return (Some o), w1) → nameof o = n) →
  P w → each get ns w = (Return rs, w') →
  nameof <$> omap id rs `sublist_of` ns.
Proof.
  intros Hkeep Hname. revert rs w.
  induction ns as [|n ns IH]; intros rs w Hw.
  - cbn. by intros [= <- _].
  - cbn [each]. unfold bind. pose proof (Hkeep n w Hw) as Hw1.
    pose proof (Hname n) as Hn.
    destruct (get n w) as [[o|e] w1] eqn:Hget; [|done].
    destruct (each get ns w1) as [[rs'|e] w2] eqn:Hrest; [|done].
    cbn. intros [= <- <-]. specialize (IH rs' w1 Hw1 Hrest).
    destruct o as [o|]; cbn.
    + rewrite (Hn o w w1 Hw Hget). by apply sublist_skip.
    + by apply sublist_cons.
Qed.

Lemma collect_names {X} (get : string → M Svc App Ctr (option X))
    (nameof : X → string) (P : W → Prop) ns objs (w w' : W) :
  (∀ n w0, P w0 → P (get n w0).2) →
  (∀ n o w0 w1, P w0 → get n w0 = (Return (Some o), w1) → nameof o = n) →
  P w → collect get ns [] w = (Return objs, w') →
  nameof <$> objs `sublist_of` ns.
Proof.
  intros Hkeep Hname Hw. rewrite collect_found_of. unfold found_of, bind.
  destruct (each get ns w) as [[rs|e] w1] eqn:Hrun; [|done].
  cbn. intros [= <- _]. by eapply each_names.
Qed.

(** X7: in a cache whose keys are the names of its objects, a look-up
    returns an object of the name asked for. The names of the objects a
    batch look-up returns are then some of the distinct names given, in
    the order of the iteration: no name twice, none that was not asked
    for. *)
Theorem found_objects_carry_requested_names nm names r ic (w : W) :
  well_keyed (cache w) →
  (∀ o w', service device nm r w = (Return (Some o), w') → name o = nm)
  ∧ (∀ o w', application device nm r ic w = (Return (Some o), w') →
       result_name o = nm)
  ∧ (∀ objs w', services device names r w = (Return objs, w') →
       name <$> objs `sublist_of` set_iter names
       ∧ NoDup (name <$> objs)
       ∧ ∀ o, o ∈ objs → name o ∈ names)
  ∧ (∀ objs w', applications device names r ic w = (Return objs, w') →
       result_name <$> objs `sublist_of` set_iter names
       ∧ NoDup (result_name <$> objs)
       ∧ ∀ o, o ∈ objs → result_name o ∈ names).
Proof.
  intros Hw.
  split; [intros o w'; by apply service_found_name|].
  split; [intros o w'; by apply application_found_name|].
  split.
  - intros objs w' Hrun.
    assert (name <$> objs `sublist_of` set_iter names) as Hsub.
    { eapply (collect_names _ name (λ w0, well_keyed (cache w0)));
        [| |exact Hw|exact Hrun].
      - intros n w0. apply service_keyed.
      - intros n o w0 w1. apply service_found_name. }
    split; [exact Hsub|]. split.
    + eapply sublist_NoDup; [apply set_iter_NoDup | exact Hsub].
    + intros o Ho. apply set_iter_elem.
      apply (sublist_subseteq _ _ Hsub). by apply list_elem_of_fmap_2.
  - intros objs w' Hrun.
    assert (result_name <$> objs `sublist_of` set_iter names) as Hsub.
    { eapply (collect_names _ result_name (λ w0, well_keyed (cache w0)));
        [| |exact Hw|exact Hrun].
      - intros n w0. apply application_keyed.
      - intros n o w0 w1. apply application_found_name. }
    split; [exact Hsub|]. split.
    + eapply sublist_NoDup; [apply set_iter_NoDup | exact Hsub].
    + intros o Ho. apply set_iter_elem.
      apply (sublist_subseteq _ _ Hsub). by apply list_elem_of_fmap_2.
Qed.

(** *** Services and applications apart *)

(** X8: services and applications do not touch each other's
    dictionaries. A refresh, look-up or batch look-up of services leaves
    the application and container dictionaries equal to what they were;
    one of applications leaves the service dictionary equal. *)
Theorem kinds_do_not_interfere nm names r ic (w : W) :
  let apps_of (w' : W) :=
    (application_objects (cache w'),
     application_container_objects (cache w')) in
  apps_of (refresh_service device nm w).2 = apps_of w
  ∧ apps_of (service device nm r w).2 = apps_of w
  ∧ apps_of (services device names r w).2 = apps_of w
  ∧ service_objects (cache (refresh_application device nm w).2)
    = service_objects (cache w)
  ∧ service_objects (cache (application device nm r ic w).2)
    = service_objects (cache w)
  ∧ service_objects (cache (applications device names r ic w).2)
    = service_objects (cache w).
Proof.
  intros apps_of.
  assert (∀ xpath (w0 : W),
            apps_of (fetch_with device store_service xpath w0).2 = apps_of w0)
    as Hfs.
  { intros xpath w0. unfold apps_of.
    by destruct (fetch_service_cache xpath w0) as (_ & -> & ->). }
  assert (∀ xpath (w0 : W),
            service_objects
              (cache (fetch_with device store_application xpath w0).2)
            = service_objects (cache w0)) as Hfa.
  { intros xpath w0.
    by destruct (fetch_application_cache xpath w0) as (_ & _ & ->). }
  assert (∀ n (w0 : W), apps_of (service device n r w0).2 = apps_of w0)
    as Hs.
  { intros n w0. by destruct (service_world n r w0) as [->| ->]. }
  assert (∀ n (w0 : W),
            service_objects (cache (application device n r ic w0).2)
                  = service_objects (cache w0)) as Ha.
  { intros n w0. by destruct (application_world n r ic w0) as [->| ->]. }
  rewrite refresh_service_fetch, refresh_application_fetch.
  split; [apply Hfs|]. split; [apply Hs|]. split.
  { apply (collect_invariant _ (λ w0, apps_of w0 = apps_of w)); [|done].
    intros n w0 <-. apply Hs. }
  split; [apply Hfa|]. split; [apply Ha|].
  apply (collect_invariant _
           (λ w0, service_objects (cache w0) = service_objects (cache w)));
    [|done].
  intros n w0 <-. apply Ha.
Qed.

(** *** Batches read from the cache *)

Lemma services_cached `{!SetOrder} names (w : W) :
  services device names false w
  = (Return (omap (λ n, service_objects (cache w) !! n) (set_iter names)), w).
Proof.
  unfold services. rewrite collect_found_of. unfold found_of, bind.
  rewrite (each_pure _ (λ w0 n, service_objects (cache w0) !! n))
    by (intros; apply service_no_refresh).
  cbn. by rewrite omap_id_fmap.
Qed.

Lemma applications_cached `{!SetOrder} names ic (w : W) :
  applications device names false ic w
  = (Return (omap (λ n, cached_application (cache w) n ic) (set_iter names)),
     w).
Proof.
  unfold applications. rewrite collect_found_of. unfold found_of, bind.
  rewrite (each_pure _ (λ w0 n, cached_application (cache w0) n ic))
    by (intros; apply application_no_refresh).
  cbn. by rewrite omap_id_fmap.
Qed.

Lemma set_iter_Permutation (o1 o2 : SetOrder) names1 names2 :
  (∀ n, n ∈ names1 ↔ n ∈ names2) →
  @set_iter o1 names1 ≡ₚ @set_iter o2 names2.
Proof.
  intros Hsame. apply NoDup_Permutation; [apply set_iter_NoDup..|].
  intros n. by rewrite !set_iter_elem.
Qed.

(** X9: with [refresh_if_none=False] a batch look-up depends only on
    which names it is given. For two lists with the same members, in any
    order and with any repetitions, and whatever the order in which the
    sets are iterated, the two results hold the same objects, each as
    often, and differ at most in their order. *)
Theorem batch_ignores_order_and_repeats (o1 o2 : SetOrder) names1 names2 ic
    (w : W) :
  (∀ n, n ∈ names1 ↔ n ∈ names2) →
  ∃ l1 l2 m1 m2,
    services (H:=o1) device names1 false w = (Return l1, w)
    ∧ services (H:=o2) device names2 false w = (Return l2, w)
    ∧ l1 ≡ₚ l2
    ∧ applications (H:=o1) device names1 false ic w
      = (Return m1, w)
    ∧ applications (H:=o2) device names2 false ic w
      = (Return m2, w)
    ∧ m1 ≡ₚ m2.
Proof.
  intros Hsame. do 4 eexists.
  split; [apply services_cached|]. split; [apply services_cached|].
  split; [by apply omap_Permutation, set_iter_Permutation|].
  split; [apply applications_cached|]. split; [apply applications_cached|].
  by apply omap_Permutation, set_iter_Permutation.
Qed.

(** *** Stale and missing names *)

(** X10: the application dictionary comes first and is never corrected
    by a container. A name it holds is returned from it whatever the
    flags, without a transport call, even when the container dictionary
    holds the name too. After [refreshall_applications()] whose response
    has no plain entry of that name (the device lists it as a container
    now, or not at all), the look-up still returns the old object. *)
Theorem stale_application_shadows nm a (w : W) :
  application_objects (cache w) !! nm = Some a →
  (∀ r ic, application device nm r ic w = (Return (Some (inl a)), w))
  ∧ ((∀ elm, elm ∈ entries (device (calls w) all_application_xpath) →
        find "functions" elm = None → name (refresh elm : App) ≠ nm) →
     ∀ r ic,
       application device nm r ic (refreshall_applications device w).2
       = (Return (Some (inl a)), (refreshall_applications device w).2)).
Proof.
  intros Ha.
  assert (∀ (w0 : W) r ic, application_objects (cache w0) !! nm = Some a →
            application device nm r ic w0 = (Return (Some (inl a)), w0))
    as Hfirst.
  { intros w0 r ic Hw0.
    rewrite application_hit; unfold cached_application; rewrite Hw0;
      [reflexivity | by eexists]. }
  split; [intros r ic; by apply Hfirst|].
  intros Hplain r ic. apply Hfirst.
  rewrite refreshall_applications_fetch.
  destruct (fetch_application_cache all_application_xpath w) as (_ & -> & _).
  rewrite foldl_put_frame; [exact Ha|].
  intros elm [Hf He]%list_elem_of_filter. by apply Hplain.
Qed.

(** X11: a miss is not remembered. When the name is not cached and the
    response to its query has no entry of that name, [service(name)]
    returns [None] after one query and the name is still not cached, so
    the next [service(name)] queries the device again. The same holds of
    [application(name, include_containers=False)] for a name the device
    has only as a container: it is stored as a container, answered with
    [None], and queried again by the next call. *)
Theorem miss_is_not_remembered nm elms (w : W) :
  let ws := (service device nm true w).2 in
  let wa := (application device nm true false w).2 in
  (service_objects (cache w) !! nm = None →
   fetched (device (calls w) (single_service_xpath nm)) = Return elms →
   (∀ elm, elm ∈ elms → name (refresh elm : Svc) ≠ nm) →
   service device nm true w = (Return None, ws)
   ∧ service_objects (cache ws) !! nm = None
   ∧ calls (service device nm true ws).2
     = calls w ++ [single_service_xpath nm; single_service_xpath nm])
  ∧ (application_objects (cache w) !! nm = None →
     fetched (device (calls w) (single_application_xpath nm)) = Return elms →
     (∀ elm, elm ∈ elms → find "functions" elm = None →
             name (refresh elm : App) ≠ nm) →
     application device nm true false w = (Return None, wa)
     ∧ application_objects (cache wa) !! nm = None
     ∧ calls (application device nm true false wa).2
       = calls w ++ [single_application_xpath nm;
                     single_application_xpath nm]).
Proof.
  cbn zeta. split.
  - intros Hmiss Hf Hother.
    assert (service_objects
              (cache (fetch_with device store_service
                        (single_service_xpath nm) w).2) !! nm = None)
      as Hstill.
    { destruct (fetch_service_cache (single_service_xpath nm) w)
        as (-> & _).
      rewrite foldl_put_frame; [done|]. unfold entries. by rewrite Hf. }
    rewrite service_calls, service_run, Hmiss, Hf. cbn [is_none andb snd].
    rewrite Hstill. cbn [is_none andb].
    split; [done|]. split; [done|]. rewrite fetch_with_calls.
    by rewrite <- app_assoc.
  - intros Hmiss Hf Hother.
    assert (application_objects
              (cache (fetch_with device store_application
                        (single_application_xpath nm) w).2) !! nm = None)
      as Hstill.
    { destruct (fetch_application_cache (single_application_xpath nm) w)
        as (_ & -> & _).
      rewrite foldl_put_frame; [done|]. unfold entries. rewrite Hf.
      intros elm [Hplain He]%list_elem_of_filter. by apply Hother. }
    rewrite application_calls, application_run. unfold cached_application.
    rewrite Hmiss, Hf. cbn [is_none andb snd]. rewrite Hstill.
    cbn [is_none andb]. split; [done|]. split; [done|].
    rewrite fetch_with_calls. by rewrite <- app_assoc.
Qed.

(** X12: the second look-up of an application is answered from the
    cache. When the response to the query for [X] has an entry stored
    under [X], plain or container, [application(X)] with containers
    included returns an object, and a second [application(X)] returns
    the same object and hands the world back as it was: the two calls
    query the device at most once. *)
Theorem application_pull_through nm elms (w : W) :
  fetched (device (calls w) (single_application_xpath nm)) = Return elms →
  (∃ elm, elm ∈ elms ∧ application_entry_name App Ctr elm = nm) →
  ∃ o w1,
    application device nm true true w = (Return (Some o), w1)
    ∧ application device nm true true w1 = (Return (Some o), w1)
    ∧ (calls w1 = calls w
       ∨ calls w1 = calls w ++ [single_application_xpath nm]).
Proof.
  intros Hf (elm & He & Hn).
  destruct (cached_application (cache w) nm true) as [o|] eqn:Hcached.
  - exists o, w. rewrite application_hit by (by eexists). rewrite Hcached.
    split; [done|]. split; [done|]. by left.
  - set (w1 := (fetch_with device store_application
                  (single_application_xpath nm) w).2).
    assert (is_Some (cached_application (cache w1) nm true)) as [o Ho].
    { unfold cached_application, w1.
      destruct (fetch_application_cache (single_application_xpath nm) w)
        as (-> & -> & _).
      unfold entries. rewrite Hf. unfold application_entry_name in Hn.
      destruct (has_functions elm) eqn:Hfun.
      - assert (is_Some (foldl put (application_container_objects (cache w))
                           (filter (λ e, is_Some (find "functions" e)) elms)
                         !! nm)) as [c Hc].
        { apply foldl_put_named. exists elm. split; [|done].
          apply list_elem_of_filter. split; [|done].
          by apply bool_decide_eq_true in Hfun. }
        rewrite Hc. by destruct (foldl put (application_objects (cache w)) _
                                 !! nm).
      - assert (is_Some (foldl put (application_objects (cache w))
                           (filter (λ e, find "functions" e = None) elms)
                         !! nm)) as [a Ha].
        { apply foldl_put_named. exists elm. split; [|done].
          apply list_elem_of_filter. split; [|done].
          apply bool_decide_eq_false in Hfun.
          destruct (find "functions" elm); [|done].
          exfalso. apply Hfun. by eexists. }
        rewrite Ha. by eexists. }
    exists o, w1. rewrite application_run, Hcached, Hf.
    cbn [is_none andb]. fold w1. rewrite Ho.
    split; [done|]. split; [|by right].
    rewrite application_hit by (by eexists). by rewrite Ho.
Qed.

(** X14: a full refresh warms the cache. When both bulk queries of
    [refreshall()] return, every name carried by an entry of the service
    response is afterwards answered by [service] from the cache, and
    every name carried by an entry of the application response by
    [application] with containers included: the look-up returns an
    object and hands the world back as it was, whatever
    [refresh_if_none] is. *)
Theorem full_refresh_warms_cache selms aelms (w : W) :
  fetched (device (calls w) all_service_xpath) = Return selms →
  fetched (device (calls w ++ [all_service_xpath]) all_application_xpath)
  = Return aelms →
  let w1 := (refreshall device w).2 in
  (refreshall device w).1 = Return tt
  ∧ (∀ nm r, (∃ elm, elm ∈ selms ∧ name (refresh elm : Svc) = nm) →
       ∃ o, service device nm r w1 = (Return (Some o), w1))
  ∧ (∀ nm r,
       (∃ elm, elm ∈ aelms ∧ application_entry_name App Ctr elm = nm) →
       ∃ o, application device nm r true w1 = (Return (Some o), w1)).
Proof.
  intros Hs Ha w1.
  split; [by rewrite refreshall_outcome, Hs, Ha|].
  assert (cache w1
          = foldl (flip store_application)
              (foldl (flip store_service) init selms) aelms) as Hcache.
  { unfold w1. rewrite refreshall_world, Hs. cbn [returned cache].
    unfold entries. by rewrite Hs, Ha. }
  destruct (foldl_store_application aelms
              (foldl (flip store_service) (@init Svc App Ctr) selms))
    as (Hc & Hp & Hsv).
  destruct (foldl_store_service selms (@init Svc App Ctr))
    as (Hsv0 & _ & _).
  split.
  - intros nm r Hnamed.
    assert (is_Some (service_objects (cache w1) !! nm)) as [o Ho].
    { rewrite Hcache, Hsv, Hsv0. by apply foldl_put_named. }
    exists o. rewrite service_hit by (by eexists). by rewrite Ho.
  - intros nm r (elm & He & Hn).
    assert (is_Some (cached_application (cache w1) nm true)) as [o Ho].
    { unfold cached_application. rewrite Hcache, Hc, Hp.
      unfold application_entry_name in Hn.
      destruct (has_functions elm) eqn:Hfun.
      - assert (is_Some
                  (foldl put
                     (application_container_objects
                        (foldl (flip store_service) (@init Svc App Ctr) selms))
                     (filter (λ e, is_Some (find "functions" e)) aelms)
                   !! nm)) as [c Hlc].
        { apply foldl_put_named. exists elm. split; [|done].
          apply list_elem_of_filter. split; [|done].
          by apply bool_decide_eq_true in Hfun. }
        rewrite Hlc.
        by destruct (foldl put (application_objects _) _ !! nm).
      - assert (is_Some
                  (foldl put
                     (application_objects
                        (foldl (flip store_service) (@init Svc App Ctr) selms))
                     (filter (λ e, find "functions" e = None) aelms)
                   !! nm)) as [a Hla].
        { apply foldl_put_named. exists elm. split; [|done].
          apply list_elem_of_filter. split; [|done].
          apply bool_decide_eq_false in Hfun.
          destruct (find "functions" elm); [|done].
          exfalso. apply Hfun. by eexists. }
        rewrite Hla. by eexists. }
    exists o. rewrite application_hit by (by eexists). by rewrite Ho.
Qed.

End MoreProperties.

(** *** The query paths *)

Lemma list_ascii_of_string_app (a b : string) :
  list_ascii_of_string (a +:+ b)
  = list_ascii_of_string a ++ list_ascii_of_string b.
Proof.
  induction a as [|c a IH]; [done|].
  change (c :: list_ascii_of_string (a +:+ b)
          = c :: (list_ascii_of_string a ++ list_ascii_of_string b)).
  by rewrite IH.
Qed.

Lemma append_inv_tail (a b s : string) : a +:+ s = b +:+ s → a = b.
Proof.
  intros Heq. apply (f_equal list_ascii_of_string) in Heq.
  rewrite !list_ascii_of_string_app in Heq. apply app_inv_tail in Heq.
  apply (f_equal string_of_list_ascii) in Heq.
  by rewrite !string_of_list_ascii_of_string in Heq.
Qed.

Lemma append_inv_head (p a b : string) : p +:+ a = p +:+ b → a = b.
Proof.
  induction p as [|c p IH]; [done|]. cbn. intros [= Heq]. by apply IH.
Qed.

Lemma percent_entry_inj (p n1 n2 : string) :
  Return (p +:+ n1 +:+ "']") = Return (p +:+ n2 +:+ "']") → n1 = n2.
Proof.
  intros [= Heq]. apply append_inv_head in Heq.
  by apply append_inv_tail in Heq.
Qed.

(** X13: the paths tell the queries apart. The name is put into the
    path as it is, so the single-entry paths of two different names
    differ, for services and for applications; and no path of one of
    the four refreshes is a path of another. *)
Theorem query_paths_are_distinct (n1 n2 : string) :
  (XPath.percent XPath.SINGLE_SERVICE_XPATH n1
   = XPath.percent XPath.SINGLE_SERVICE_XPATH n2 → n1 = n2)
  ∧ (XPath.percent XPath.SINGLE_APPLICATION_XPATH n1
     = XPath.percent XPath.SINGLE_APPLICATION_XPATH n2 → n1 = n2)
  ∧ XPath.percent XPath.SINGLE_SERVICE_XPATH n1
    ≠ XPath.percent XPath.SINGLE_APPLICATION_XPATH n2
  ∧ XPath.percent XPath.SINGLE_SERVICE_XPATH n1
    ≠ Return (XPath.ALL_SERVICE_XPATH +:+ "/entry")
  ∧ XPath.percent XPath.SINGLE_SERVICE_XPATH n1
    ≠ Return (XPath.ALL_APPLICATION_XPATH +:+ "/entry")
  ∧ XPath.percent XPath.SINGLE_APPLICATION_XPATH n1
    ≠ Return (XPath.ALL_APPLICATION_XPATH +:+ "/entry")
  ∧ XPath.percent XPath.SINGLE_APPLICATION_XPATH n1
    ≠ Return (XPath.ALL_SERVICE_XPATH +:+ "/entry")
  ∧ XPath.ALL_SERVICE_XPATH +:+ "/entry"
    ≠ XPath.ALL_APPLICATION_XPATH +:+ "/entry".
Proof.
  split; [apply (percent_entry_inj "/config/predefined/service/entry[@name='")|].
  split.
  { apply (percent_entry_inj
             ("/config/predefined//*[contains(local-name(), "
              +:+ XPath.dquote +:+ "application" +:+ XPath.dquote
              +:+ ")]/entry[@name='")). }
  repeat split; discriminate.
Qed.

(** *** The further properties on the concrete devices *)

Lemma refresh_without_result_witness :
  without_result
    (Scenario.bare_device (calls Demo.fresh) (single_service_xpath "ssh"))
  ∧ refresh_service Scenario.bare_device "ssh" Demo.fresh
    = (Raise (TypeError "'NoneType' object is not iterable"),
       logged (single_service_xpath "ssh") Demo.fresh).
Proof.
  assert (without_result
            (Scenario.bare_device (calls Demo.fresh)
               (single_service_xpath "ssh"))) as Hbare
    by (eexists; split; reflexivity).
  split; [exact Hbare|].
  destruct (refresh_without_result Scenario.bare_device "ssh" true Demo.fresh)
    as (Hsvc & _).
  destruct (Hsvc Hbare) as [Hraise _]. exact Hraise.
Defined.

Lemma refreshall_failure_witness :
  is_Some (application_container_objects (cache Demo.stale) !! "web-browsing")
  ∧ (refreshall Scenario.half_device Demo.stale).1
    = Raise (PanDeviceXapiError "timeout")
  ∧ application_container_objects
      (cache (refreshall Scenario.half_device Demo.stale).2)
    = ∅.
Proof.
  split; [by eexists|].
  destruct (refreshall_failure Scenario.half_device
              (PanDeviceXapiError "timeout") Demo.stale) as (_ & Hsecond).
  destruct (Hsecond [Demo.tcp80]) as (Hraise & _ & _ & _ & Hempty);
    [reflexivity | reflexivity |].
  split; [exact Hraise | exact Hempty].
Defined.

Lemma keys_are_names_witness :
  well_keyed (cache Demo.fresh)
  ∧ well_keyed
      (cache (services Demo.quiet_device ["service-http"; "B"] true
                Demo.fresh).2).
Proof.
  destruct (keys_are_names Demo.quiet_device "ssh" ["service-http"; "B"]
              true true Demo.fresh) as (Hinit & _ & Hkept).
  split; [exact Hinit|].
  destruct (Hkept Hinit) as (_ & _ & _ & _ & _ & _ & Hbatch & _).
  exact Hbatch.
Defined.

Lemma found_objects_carry_requested_names_witness :
  well_keyed (cache Demo.fresh)
  ∧ name <$> [Demo.parse Demo.KService Demo.tcp80]
    `sublist_of` set_iter ["service-http"; "service-http"; "B"].
Proof.
  assert (well_keyed (cache Demo.fresh)) as Hinit by apply init_keyed.
  split; [exact Hinit|].
  destruct (found_objects_carry_requested_names Demo.quiet_device "ssh"
              ["service-http"; "service-http"; "B"] true true Demo.fresh
              Hinit) as (_ & _ & Hbatch & _).
  assert (services Demo.quiet_device ["service-http"; "service-http"; "B"]
            true Demo.fresh
          = (Return [Demo.parse Demo.KService Demo.tcp80],
             (services Demo.quiet_device
                ["service-http"; "service-http"; "B"] true Demo.fresh).2))
    as Hrun by reflexivity.
  destruct (Hbatch _ _ Hrun) as (Hsub & _). exact Hsub.
Defined.

Lemma batch_ignores_order_and_repeats_witness :
  ∃ l1 l2 : list Demo.ServiceObject,
    services (H:=Demo.first_occurrence) Demo.quiet_device
      ["old-svc"; "B"; "old-svc"] false Demo.stale
    = (Return l1, Demo.stale)
    ∧ services (H:=Scenario.reversed_order) Demo.quiet_device
        ["B"; "old-svc"] false Demo.stale
      = (Return l2, Demo.stale)
    ∧ l1 ≡ₚ l2.
Proof.
  destruct (batch_ignores_order_and_repeats Demo.quiet_device
              Demo.first_occurrence Scenario.reversed_order
              ["old-svc"; "B"; "old-svc"] ["B"; "old-svc"] true Demo.stale)
    as (l1 & l2 & _ & _ & H1 & H2 & Hperm & _).
  - intros n. rewrite !elem_of_cons, !elem_of_nil. tauto.
  - by exists l1, l2.
Defined.

Lemma stale_application_shadows_witness :
  application_objects (cache Scenario.reclassified) !! "web-browsing"
  = Some (Demo.parse Demo.KApplication (Demo.entry "web-browsing" []))
  ∧ is_Some
      (application_container_objects
         (cache (refreshall_applications Demo.quiet_device
                   Scenario.reclassified).2) !! "web-browsing")
  ∧ application Demo.quiet_device "web-browsing" true true
      (refreshall_applications Demo.quiet_device Scenario.reclassified).2
    = (Return
         (Some (inl (Demo.parse Demo.KApplication
                       (Demo.entry "web-browsing" [])))),
       (refreshall_applications Demo.quiet_device Scenario.reclassified).2).
Proof.
  split; [reflexivity|]. split; [by eexists|].
  destruct (stale_application_shadows Demo.quiet_device "web-browsing"
              (Demo.parse Demo.KApplication (Demo.entry "web-browsing" []))
              Scenario.reclassified) as (_ & Hafter); [reflexivity|].
  apply Hafter. intros elm Hin.
  change (elm ∈ [Demo.ssh; Demo.web_browsing]) in Hin.
  apply elem_of_cons in Hin as [->|Hin]; [discriminate|].
  apply list_elem_of_singleton in Hin as ->. discriminate.
Defined.

Lemma miss_is_not_remembered_witness :
  application_objects (cache Demo.fresh) !! "web-browsing" = None
  ∧ application Demo.quiet_device "web-browsing" true false Demo.fresh
    = (Return None,
       (application Demo.quiet_device "web-browsing" true false
          Demo.fresh).2)
  ∧ calls (application Demo.quiet_device "web-browsing" true false
             (application Demo.quiet_device "web-browsing" true false
                Demo.fresh).2).2
    = [single_application_xpath "web-browsing";
       single_application_xpath "web-browsing"].
Proof.
  split; [reflexivity|].
  destruct (miss_is_not_remembered Demo.quiet_device "web-browsing"
              [Demo.web_browsing] Demo.fresh) as (_ & Happ).
  destruct Happ as (Hnone & _ & Hagain); [reflexivity | reflexivity | |].
  - intros elm Hin%list_elem_of_singleton. subst elm. discriminate.
  - split; [exact Hnone | exact Hagain].
Defined.

Lemma application_pull_through_witness :
  fetched (Demo.quiet_device (calls Demo.fresh)
             (single_application_xpath "web-browsing"))
  = Return [Demo.web_browsing]
  ∧ ∃ o w1,
      application Demo.quiet_device "web-browsing" true true Demo.fresh
      = (Return (Some o), w1)
      ∧ application Demo.quiet_device "web-browsing" true true w1
        = (Return (Some o), w1)
      ∧ (calls w1 = calls Demo.fresh
         ∨ calls w1
           = calls Demo.fresh ++ [single_application_xpath "web-browsing"]).
Proof.
  split; [reflexivity|].
  apply (application_pull_through Demo.quiet_device "web-browsing"
           [Demo.web_browsing] Demo.fresh); [reflexivity|].
  exists Demo.web_browsing. split; [left | reflexivity].
Defined.

Lemma query_paths_are_distinct_witness :
  XPath.percent XPath.SINGLE_SERVICE_XPATH "ssh"
  = XPath.percent XPath.SINGLE_SERVICE_XPATH ("s" +:+ "sh")
  ∧ "ssh" = "s" +:+ "sh".
Proof.
  split; [reflexivity|].
  destruct (query_paths_are_distinct "ssh" ("s" +:+ "sh")) as (Hinj & _).
  apply Hinj. reflexivity.
Defined.

(** The last of two entries of one name is the one kept. *)
Example refresh_service_keeps_last_entry :
  service Scenario.twice_device "service-http" true Demo.fresh
  = (Return (Some (Demo.parse Demo.KService Scenario.tcp8080)),
     (service Scenario.twice_device "service-http" true Demo.fresh).2).
Proof. reflexivity. Qed.

Lemma full_refresh_warms_cache_witness :
  fetched (Demo.quiet_device (calls Demo.stale) all_service_xpath)
  = Return [Demo.tcp80]
  ∧ ∃ o,
      application Demo.quiet_device "web-browsing" true true
        (refreshall Demo.quiet_device Demo.stale).2
      = (Return (Some o), (refreshall Demo.quiet_device Demo.stale).2).
Proof.
  split; [reflexivity|].
  destruct (full_refresh_warms_cache Demo.quiet_device [Demo.tcp80]
              [Demo.ssh; Demo.web_browsing] Demo.stale)
    as (_ & _ & Happ); [reflexivity | reflexivity |].
  apply Happ. exists Demo.web_browsing.
  split; [right; left | reflexivity].
Defined.
